(** * Machine creation on the ironcore metal control plane

    A shallow embedding of [pkg/metal/create_machine.go] and
    [pkg/client/provider.go]: the orchestration of [CreateMachine]
    (address claims, ignition secret, server claim) over an abstract
    control-plane client, and the reloadable client provider. *)

From stdpp Require Import gmap strings list fin_maps.
From Stdlib Require Import ZArith.

#[local] Set Warnings "-register-all".

(** ** Errors and results *)

(** gRPC-style codes of [machinecodes/codes] used by the driver. *)
Inductive Code := InvalidArgument | Internal.

(** Go [error] values that the driver builds or receives. *)
Inductive error :=
  | ErrNotFound                               (* API status reason NotFound *)
  | ErrAlreadyExists                          (* API status reason AlreadyExists *)
  | ErrAPI (msg : string)                     (* any other API or transport error *)
  | ErrDeadlineExceeded                       (* context.DeadlineExceeded *)
  | ErrNew (msg : string)                     (* errors.New / fmt.Errorf without %w *)
  | ErrWrap (msg : string) (cause : error)    (* fmt.Errorf("msg: %w", cause) *)
  | ErrStatus (c : Code) (msg : string).      (* status.Error(c, msg) *)

Inductive result (A : Type) :=
  | Ok (a : A)
  | Err (e : error).
Arguments Ok {A} a.
Arguments Err {A} e.

Definition errOf {A} (r : result A) : option error :=
  match r with Ok _ => None | Err e => Some e end.

Definition isOk {A} (r : result A) : bool :=
  match r with Ok _ => true | Err _ => false end.

(** [apierrors.IsNotFound] looks through wrapped errors. *)
Fixpoint IsNotFound (e : error) : bool :=
  match e with
  | ErrNotFound => true
  | ErrWrap _ c => IsNotFound c
  | _ => false
  end.

(** [err.Error()]. *)
Fixpoint errString (e : error) : string :=
  match e with
  | ErrNotFound => "not found"
  | ErrAlreadyExists => "already exists"
  | ErrAPI m => m
  | ErrDeadlineExceeded => "context deadline exceeded"
  | ErrNew m => m
  | ErrWrap m c => m +:+ ": " +:+ errString c
  | ErrStatus _ m => m
  end.

Definition nonEmpty (s : string) : bool := negb (String.eqb s "").

(** [p == nil] for a pointer. *)
Definition isNil {A} (p : option A) : bool :=
  match p with None => true | Some _ => false end.

(** ** Untyped metadata: [map[string]any] *)

Inductive value :=
  | VNull
  | VBool (b : bool)
  | VNum (n : Z)
  | VStr (s : string)
  | VList (l : list value)
  | VMap (m : gmap string value).


(** ** Control-plane objects *)

Record ObjectKey := { Namespace : string; Name : string }.

Record IPAMObjectReference :=
  { ref_Name : string; ref_APIGroup : string; ref_Kind : string }.

(** One entry of [providerSpec.IPAMConfig]. *)
Record IPAMConfig :=
  { MetadataKey : string; IPAMRef : option IPAMObjectReference }.

Record TypedLocalObjectReference :=
  { pool_APIGroup : option string; pool_Kind : string; pool_Name : string }.

Record IPAddressClaim :=
  { claim_Name : string;
    claim_Namespace : string;
    claim_PoolRef : TypedLocalObjectReference;
    claim_AddressRefName : string (* Status.AddressRef.Name *) }.

Record IPAddress :=
  { addr_Address : string; addr_Prefix : Z; addr_Gateway : string }.

Record Secret :=
  { sec_APIVersion : string;
    sec_Kind : string;
    sec_Name : string;
    sec_Namespace : string;
    sec_Data : gmap string string }.

Record ServerClaim :=
  { sc_APIVersion : string;
    sc_Kind : string;
    sc_Name : string;
    sc_Namespace : string;
    sc_Labels : gmap string string;
    sc_Power : string;
    sc_MatchLabels : gmap string string;
    sc_IgnitionSecretRef : string;
    sc_Image : string }.

Record ProviderSpec :=
  { ps_Image : string;
    ps_Ignition : string;
    ps_IgnitionOverride : bool;
    ps_Metadata : option (gmap string value);   (* None is the nil map *)
    ps_IPAMConfig : list IPAMConfig;
    ps_Labels : gmap string string;
    ps_ServerLabels : gmap string string;
    ps_DnsServers : list string }.

Record MachineClass := { mc_Provider : string; mc_ProviderSpecRaw : string }.
Record Machine := { m_Name : string }.

(** [driver.CreateMachineRequest]; each pointer field may be nil. *)
Record CreateMachineRequest :=
  { req_MachineClass : option MachineClass;
    req_Machine : option Machine;
    req_Secret : option Secret }.

Record CreateMachineResponse := { ProviderID : string; NodeName : string }.

(** [ignition.Config], the input of the renderer. *)
Record IgnitionConfig :=
  { ign_Hostname : string;
    ign_UserData : string;
    ign_MetaData : gmap string value;
    ign_Ignition : string;
    ign_DnsServers : list string;
    ign_IgnitionOverride : bool }.

(** ** The control-plane client and its call trace *)

Inductive Kind := KClaim | KAddress | KServerClaim | KSecret.

#[export] Instance Kind_eq_dec : EqDecision Kind.
Proof. solve_decision. Defined.

Inductive Object :=
  | OClaim (c : IPAddressClaim)
  | OServerClaim (s : ServerClaim)
  | OSecret (s : Secret).

Definition kindOf (o : Object) : Kind :=
  match o with
  | OClaim _ => KClaim
  | OServerClaim _ => KServerClaim
  | OSecret _ => KSecret
  end.

Inductive PatchType := ApplyPatch | MergePatch.

(** What the driver does to the provider mutex and to the control plane,
    in program order, each call with the error it returned. *)
Inductive Event :=
  | EvLock
  | EvUnlock
  | EvGet (k : Kind) (key : ObjectKey) (err : option error)
  | EvCreate (o : Object) (err : option error)
  | EvPatch (o : Object) (p : PatchType) (owner : string) (force : bool)
            (err : option error).

(** [client.Client] of controller-runtime, at the object types the driver
    uses.  A call reads and may change the remote state [W]; on success it
    returns the object as the server sent it back. *)
Class ClientInterface (W : Type) :=
  { cl_GetClaim : ObjectKey -> W -> result IPAddressClaim * W;
    cl_CreateClaim : IPAddressClaim -> W -> result IPAddressClaim * W;
    cl_GetAddress : ObjectKey -> W -> result IPAddress * W;
    cl_PatchServerClaim : ServerClaim -> W -> result ServerClaim * W;
    cl_PatchSecret : Secret -> W -> result Secret * W }.

(** Code of other packages that [CreateMachine] calls. *)
Record Collaborators :=
  { unmarshalProviderSpec : string -> result ProviderSpec;       (* json.Unmarshal *)
    ValidateProviderSpecAndSecret : ProviderSpec -> Secret -> list string;
    ignition_File : IgnitionConfig -> result string;             (* ignition.File *)
    getIgnitionNameForMachine : string -> string;
    getProviderIDForServerClaim : ServerClaim -> string;
    fieldOwner : string;
    (* the timer of [wait]: the ticks, one per [interval], that a poll
       receives before its [timeout] has passed; timeout / interval when the
       condition takes no time *)
    timerTicks : nat -> nat -> nat }.

Record metalDriver := { metalNamespace : string }.

(** [apiv1alpha1.ProviderName] *)
Definition ProviderName : string := "ironcore-metal".
(** [capiv1beta1.GroupVersion.Group] *)
Definition capiGroup : string := "ipam.cluster.x-k8s.io".
(** [utilvalidation.DNS1123SubdomainMaxLength] *)
Definition DNS1123SubdomainMaxLength : nat := 253.
(** The interval and the timeout of the wait for a claim, in milliseconds. *)
Definition pollInterval : nat := 50.
Definition pollTimeout : nat := 340.

(** ** The driver monad: remote state, failure, and the events issued *)

Definition M (W A : Type) : Type := W -> result A * W * list Event.

Definition ret {W A} (a : A) : M W A := fun w => (Ok a, w, []).
Definition fail {W A} (e : error) : M W A := fun w => (Err e, w, []).
Definition bind {W A B} (m : M W A) (f : A -> M W B) : M W B :=
  fun w =>
    match m w with
    | (Err e, w1, t1) => (Err e, w1, t1)
    | (Ok a, w1, t1) =>
        match f a w1 with
        | (r, w2, t2) => (r, w2, t1 ++ t2)
        end
    end.

Notation "x <- m ;; k" := (bind m (fun x => k))
  (at level 100, m at next level, right associativity).

(** [p.Lock(); defer p.Unlock()] around a body. *)
Definition withLock {W A} (m : M W A) : M W A :=
  fun w => match m w with (r, w1, t) => (r, w1, EvLock :: t ++ [EvUnlock]) end.

Definition outcome {W A} (x : result A * W * list Event) : result A := x.1.1.
Definition world {W A} (x : result A * W * list Event) : W := x.1.2.
Definition trace {W A} (x : result A * W * list Event) : list Event := x.2.

(** ** Names of address claims *)

(** [fmt.Sprintf("%s-%s", machineName, key)], cut to the maximum length of a
    DNS-1123 subdomain. *)
Definition ipAddrClaimName (machineName metadataKey : string) : string :=
  let name := machineName +:+ "-" +:+ metadataKey in
  if Nat.ltb DNS1123SubdomainMaxLength (String.length name)
  then String.substring 0 DNS1123SubdomainMaxLength name
  else name.

(** ** Merging metadata *)

(** Modelled from the spec: [mergo.Merge(&dst, src, mergo.WithOverride)] of
    the package github.com/imdario/mergo, whose code is not part of the
    sources here.  Every key of [src] is visited once; where both sides hold
    a map the two are merged key by key, and in every other case the element
    of [src] replaces the element of [dst] (override, not union). *)
Fixpoint mergeElement (srcElement : value) (dstElement : option value) : value :=
  match srcElement, dstElement with
  | VMap src, Some (VMap dst) =>
      VMap (map_fold (fun key v acc => <[key := mergeElement v (acc !! key)]> acc)
                     dst src)
  | _, _ => srcElement
  end.

Definition mergo_Merge (dst src : gmap string value) : gmap string value :=
  map_fold (fun key v acc => <[key := mergeElement v (acc !! key)]> acc) dst src.

(** The loop of [applyIgnition] over [addressMetaData]. *)
Definition mergeAddressMetaData (metadata : gmap string value)
    (addressMetaData : list (gmap string value)) : gmap string value :=
  fold_left mergo_Merge addressMetaData metadata.


Section Driver.
Context {W : Type} {C : ClientInterface W} (deps : Collaborators).

(** *** Client calls, recorded *)

Definition Get_claim (key : ObjectKey) : M W (result IPAddressClaim) :=
  fun w => match cl_GetClaim key w with
           | (r, w1) => (Ok r, w1, [EvGet KClaim key (errOf r)])
           end.

Definition Get_address (key : ObjectKey) : M W (result IPAddress) :=
  fun w => match cl_GetAddress key w with
           | (r, w1) => (Ok r, w1, [EvGet KAddress key (errOf r)])
           end.

Definition Create_claim (c : IPAddressClaim) : M W (result IPAddressClaim) :=
  fun w => match cl_CreateClaim c w with
           | (r, w1) => (Ok r, w1, [EvCreate (OClaim c) (errOf r)])
           end.

(** [Patch(ctx, obj, client.Apply, fieldOwner, client.ForceOwnership)] *)
Definition Apply_serverClaim (s : ServerClaim) : M W (result ServerClaim) :=
  fun w => match cl_PatchServerClaim s w with
           | (r, w1) =>
               (Ok r, w1,
                [EvPatch (OServerClaim s) ApplyPatch (fieldOwner deps) true (errOf r)])
           end.

Definition Apply_secret (s : Secret) : M W (result Secret) :=
  fun w => match cl_PatchSecret s w with
           | (r, w1) =>
               (Ok r, w1,
                [EvPatch (OSecret s) ApplyPatch (fieldOwner deps) true (errOf r)])
           end.

(** *** Waiting for a claim *)

(** The loop of [wait.PollUntilContextTimeout]: the condition runs, and
    runs again at every tick the timer still delivers, until it reports
    done or fails; when no tick is left the deadline has passed. *)
Fixpoint pollLoop {S : Type} (ticks : nat)
    (cond : S -> M W (bool * S)) (s : S) : M W S :=
  r <- cond s ;;
  if r.1 then ret r.2
  else match ticks with
       | O => fail ErrDeadlineExceeded
       | S n => pollLoop n cond r.2
       end.

(** [wait.PollUntilContextTimeout(ctx, interval, timeout, immediate, cond)],
    for a context that the caller does not cancel: with [immediate] the
    condition runs at once, otherwise it waits for the first tick. *)
Definition PollUntilContextTimeout {S : Type} (interval timeout : nat)
    (immediate : bool) (cond : S -> M W (bool * S)) (s : S) : M W S :=
  let ticks := timerTicks deps interval timeout in
  if immediate then pollLoop ticks cond s
  else match ticks with
       | O => fail ErrDeadlineExceeded
       | S n => pollLoop n cond s
       end.

(** The condition of the wait in [applyCapiIPAddress]; [ipClaim] is the
    object the closure keeps reading into. *)
Definition claimReady (key : ObjectKey) (ipClaim : IPAddressClaim)
    : M W (bool * IPAddressClaim) :=
  r <- Get_claim key ;;
  match r with
  | Err err =>
      if negb (IsNotFound err) then fail err
      else ret (nonEmpty (claim_AddressRefName ipClaim), ipClaim)
  | Ok c => ret (nonEmpty (claim_AddressRefName c), c)
  end.

(** The tail of [applyCapiIPAddress]: read the address the claim names. *)
Definition resolveAddress (networkRef : IPAMConfig) (ipClaim : IPAddressClaim)
    : M W (gmap string value) :=
  let ipAddrKey := {| Namespace := claim_Namespace ipClaim;
                      Name := claim_AddressRefName ipClaim |} in
  r <- Get_address ipAddrKey ;;
  match r with
  | Err err => fail err
  | Ok ipAddr =>
      ret {[ MetadataKey networkRef :=
               VMap {[ "ip" := VStr (addr_Address ipAddr);
                       "prefix" := VNum (addr_Prefix ipAddr);
                       "gateway" := VStr (addr_Gateway ipAddr) ]} ]}
  end.

Definition newClaim (key : ObjectKey) (ref : IPAMObjectReference) : IPAddressClaim :=
  {| claim_Name := Name key;
     claim_Namespace := Namespace key;
     claim_PoolRef := {| pool_APIGroup := Some (ref_APIGroup ref);
                         pool_Kind := ref_Kind ref;
                         pool_Name := ref_Name ref |};
     claim_AddressRefName := "" |}.

Definition ipAddrClaimKey (d : metalDriver) (networkRef : IPAMConfig)
    (machineName : string) : ObjectKey :=
  {| Namespace := metalNamespace d;
     Name := ipAddrClaimName machineName (MetadataKey networkRef) |}.

Definition applyCapiIPAddress (d : metalDriver) (networkRef : IPAMConfig)
    (machineName : string) : M W (gmap string value) :=
  let ipAddrClaimKey := ipAddrClaimKey d networkRef machineName in
  r <- Get_claim ipAddrClaimKey ;;
  match r with
  | Ok ipClaim =>
      if nonEmpty (claim_AddressRefName ipClaim)
      then resolveAddress networkRef ipClaim
      else fail (ErrNew "IP address claim isn't ready")
  | Err err =>
      if negb (IsNotFound err) then fail err
      else
        match IPAMRef networkRef with
        | None => fail (ErrNew "ipamRef of an ipamConfig is not set")
        | Some ref =>
            c <- Create_claim (newClaim ipAddrClaimKey ref) ;;
            match c with
            | Err err => fail (ErrWrap "error creating IP" err)
            | Ok ipClaim =>
                ipClaim' <- PollUntilContextTimeout pollInterval pollTimeout true
                              (claimReady ipAddrClaimKey) ipClaim ;;
                resolveAddress networkRef ipClaim'
            end
        end
  end.

(** What [applyCapiIPAddress] does after a create that succeeded: the
    wait, then the resolution. *)
Definition waitAndResolve (d : metalDriver) (networkRef : IPAMConfig)
    (machineName : string) (c : IPAddressClaim) : M W (gmap string value) :=
  ipClaim <- PollUntilContextTimeout pollInterval pollTimeout true
               (claimReady (ipAddrClaimKey d networkRef machineName)) c ;;
  resolveAddress networkRef ipClaim.

(** The test of the loop in [applyIPAddresses]. *)
Definition isCapiRef (networkRef : IPAMConfig) : bool :=
  match IPAMRef networkRef with
  | Some ref => String.eqb (ref_APIGroup ref) capiGroup
  | None => false
  end.

(** The loop of [applyIPAddresses] over [providerSpec.IPAMConfig]. *)
Fixpoint applyNetworkRefs (d : metalDriver) (machineName : string)
    (refs : list IPAMConfig) (allAddressMetaData : list (gmap string value))
    : M W (list (gmap string value)) :=
  match refs with
  | [] => ret allAddressMetaData
  | networkRef :: rest =>
      if isCapiRef networkRef
      then
        addressMetaData <- applyCapiIPAddress d networkRef machineName ;;
        applyNetworkRefs d machineName rest (allAddressMetaData ++ [addressMetaData])
      else applyNetworkRefs d machineName rest allAddressMetaData
  end.

Definition applyIPAddresses (d : metalDriver) (machineName : string)
    (providerSpec : ProviderSpec) : M W (list (gmap string value)) :=
  withLock (applyNetworkRefs d machineName (ps_IPAMConfig providerSpec) []).

(** *** The ignition secret *)

Definition applyIgnition (d : metalDriver) (machineName : string)
    (secret : Secret) (providerSpec : ProviderSpec)
    (addressMetaData : list (gmap string value)) : result Secret :=
  match sec_Data secret !! "userData" with
  | None =>
      Err (ErrStatus Internal
             ("failed to find user-data in machine secret "
              +:+ sec_Namespace secret +:+ "/" +:+ sec_Name secret))
  | Some userData =>
      let metadata := default ∅ (ps_Metadata providerSpec) in
      let metadata := mergeAddressMetaData metadata addressMetaData in
      let config := {| ign_Hostname := machineName;
                       ign_UserData := userData;
                       ign_MetaData := metadata;
                       ign_Ignition := ps_Ignition providerSpec;
                       ign_DnsServers := ps_DnsServers providerSpec;
                       ign_IgnitionOverride := ps_IgnitionOverride providerSpec |} in
      match ignition_File deps config with
      | Err err =>
          Err (ErrStatus Internal
                 ("failed to create ignition file for machine "
                  +:+ machineName +:+ ": " +:+ errString err))
      | Ok ignitionContent =>
          Ok {| sec_APIVersion := "v1";
                sec_Kind := "Secret";
                sec_Name := getIgnitionNameForMachine deps machineName;
                sec_Namespace := metalNamespace d;
                sec_Data := {[ "ignition" := ignitionContent ]} |}
      end
  end.

(** *** The server claim *)

Definition newServerClaim (d : metalDriver) (machineName : string)
    (providerSpec : ProviderSpec) (ignitionSecret : Secret) : ServerClaim :=
  {| sc_APIVersion := "metal.ironcore.dev/v1alpha1";
     sc_Kind := "ServerClaim";
     sc_Name := machineName;
     sc_Namespace := metalNamespace d;
     sc_Labels := ps_Labels providerSpec;
     sc_Power := "On";
     sc_MatchLabels := ps_ServerLabels providerSpec;
     sc_IgnitionSecretRef := sec_Name ignitionSecret;
     sc_Image := ps_Image providerSpec |}.

Definition applyServerClaim (d : metalDriver) (machineName : string)
    (providerSpec : ProviderSpec) (ignitionSecret : Secret) : M W ServerClaim :=
  let serverClaim := newServerClaim d machineName providerSpec ignitionSecret in
  withLock (
    r <- Apply_serverClaim serverClaim ;;
    match r with
    | Err err =>
        fail (ErrStatus Internal ("error applying metal machine: " +:+ errString err))
    | Ok serverClaim' =>
        r' <- Apply_secret ignitionSecret ;;
        match r' with
        | Err err =>
            fail (ErrStatus Internal
                    ("error applying ignition secret: " +:+ errString err))
        | Ok _ => ret serverClaim'
        end
    end).

(** *** The request *)

Definition isEmptyCreateRequest (req : option CreateMachineRequest) : bool :=
  match req with
  | None => true
  | Some r =>
      isNil (req_MachineClass r) || isNil (req_Machine r) || isNil (req_Secret r)
  end.

Definition validateProviderSpecAndSecret (class : option MachineClass)
    (secret : Secret) : result ProviderSpec :=
  match class with
  | None => Err (ErrStatus Internal "MachineClass in ProviderSpec is not set")
  | Some class =>
      match unmarshalProviderSpec deps (mc_ProviderSpecRaw class) with
      | Err err => Err (ErrStatus Internal (errString err))
      | Ok providerSpec =>
          match ValidateProviderSpecAndSecret deps providerSpec secret with
          | [] => Ok providerSpec
          | errs =>
              Err (ErrStatus Internal
                     ("failed to validate provider spec and secret: ["
                      +:+ String.concat " " errs +:+ "]"))
          end
      end
  end.

Definition CreateMachine (d : metalDriver) (req : option CreateMachineRequest)
    : M W CreateMachineResponse :=
  if isEmptyCreateRequest req
  then fail (ErrStatus InvalidArgument "received empty request")
  else
  match req with
  | Some {| req_MachineClass := Some class;
            req_Machine := Some machine;
            req_Secret := Some secret |} =>
      if negb (String.eqb (mc_Provider class) ProviderName)
      then fail (ErrStatus InvalidArgument
                   ("requested provider '" +:+ mc_Provider class
                    +:+ "' is not supported by the driver '"
                    +:+ ProviderName +:+ "'"))
      else
        match validateProviderSpecAndSecret (Some class) secret with
        | Err err => fail err
        | Ok providerSpec =>
            addressMetaData <- applyIPAddresses d (m_Name machine) providerSpec ;;
            match applyIgnition d (m_Name machine) secret providerSpec
                                addressMetaData with
            | Err err => fail err
            | Ok ignitionSecret =>
                serverClaim <- applyServerClaim d (m_Name machine) providerSpec
                                                ignitionSecret ;;
                ret {| ProviderID := getProviderIDForServerClaim deps serverClaim;
                       NodeName := sc_Name serverClaim |}
            end
        end
  | _ => fail (ErrStatus InvalidArgument "received empty request")
  end.

End Driver.

(** ** The client provider ([pkg/client/provider.go]) *)

(** The files the provider reads, by path. *)
Abbreviation FileSystem := (gmap string string).

Section ClientProvider.
(** [clientcmd] and controller-runtime, as the provider uses them. *)
Context {Kubeconfig RestConfig Handle : Type}.
Context (clientcmd_Load : string -> result Kubeconfig)
        (ClientConfig : Kubeconfig -> result RestConfig)
        (ConfigNamespace : Kubeconfig -> result string)
        (client_New : RestConfig -> result Handle).

(** [Provider]; the mutex is a field of the concurrent model below. *)
Record Provider := { Client : option Handle; kubeconfigPath : string }.

Definition os_ReadFile (fs : FileSystem) (path : string) : result string :=
  match fs !! path with
  | Some data => Ok data
  | None => Err (ErrAPI ("open " +:+ path +:+ ": no such file or directory"))
  end.

Definition getClientConfig (fs : FileSystem) (p : Provider) : result Kubeconfig :=
  match os_ReadFile fs (kubeconfigPath p) with
  | Err err =>
      Err (ErrWrap ("failed to read metal kubeconfig " +:+ kubeconfigPath p) err)
  | Ok kubeconfigData =>
      match clientcmd_Load kubeconfigData with
      | Err err => Err (ErrWrap "unable to read metal cluster kubeconfig" err)
      | Ok kubeconfig => Ok kubeconfig
      end
  end.

Definition getNamespace (clientConfig : Kubeconfig) : result string :=
  match ConfigNamespace clientConfig with
  | Err err =>
      Err (ErrWrap "failed to get namespace from metal cluster kubeconfig" err)
  | Ok namespace =>
      if String.eqb namespace ""
      then Err (ErrNew "got a empty namespace from metal cluster kubeconfig")
      else Ok namespace
  end.

(** [setMetalClient]: the error it returns and the provider it leaves. *)
Definition setMetalClient (p : Provider) (clientConfig : Kubeconfig)
    : option error * Provider :=
  match ClientConfig clientConfig with
  | Err err => (Some (ErrWrap "unable to get metal cluster rest config" err), p)
  | Ok restConfig =>
      match client_New restConfig with
      | Err err => (Some (ErrWrap "failed to create client" err), p)
      | Ok newClient =>
          (None, {| Client := Some newClient; kubeconfigPath := kubeconfigPath p |})
      end
  end.

Definition quote : string := String (Ascii.ascii_of_nat 34) EmptyString.

(** [NewProviderAndNamespace]; [watcherAdd] is what [watcher.Add] on the
    directory of the kubeconfig returns.  The watcher goroutine it starts
    is [watchLoop] below. *)
Definition NewProviderAndNamespace (watcherAdd : option error) (fs : FileSystem)
    (path : string) : result (Provider * string) :=
  let cp := {| Client := None; kubeconfigPath := path |} in
  match watcherAdd with
  | Some err =>
      Err (ErrNew ("unable to add kubeconfig " +:+ quote +:+ path +:+ quote
                   +:+ " to watcher: " +:+ errString err))
  | None =>
      match getClientConfig fs cp with
      | Err err => Err err
      | Ok clientConfig =>
          match setMetalClient cp clientConfig with
          | (Some err, _) => Err err
          | (None, cp') =>
              match getNamespace clientConfig with
              | Err err => Err err
              | Ok namespace => Ok (cp', namespace)
              end
          end
      end
  end.

(** What the watcher goroutine selects on. *)
Inductive WatchInput :=
  | WatcherError (err : error)
  | WatcherEvent (name : string)
  | ContextDone.

(** The [case event := <-watcher.Events] arm of the watcher loop: the
    provider afterwards and the lines logged. *)
Definition handleEvent (fs : FileSystem) (p : Provider) (name : string)
    : Provider * list string :=
  let l0 := ["event: " +:+ name] in
  if negb (String.eqb name (kubeconfigPath p)) then (p, l0)
  else
    match getClientConfig fs p with
    | Err err =>
        (p, l0 ++ ["couldn't get client config when config changed: "
                   +:+ errString err])
    | Ok clientConfig =>
        match setMetalClient p clientConfig with
        | (Some err, p') =>
            (p', l0 ++ ["couldn't update metal client when config changed: "
                        +:+ errString err;
                        "change of kubeconfig was handled successfully"])
        | (None, p') =>
            (p', l0 ++ ["change of kubeconfig was handled successfully"])
        end
    end.

(** How the watcher goroutine ended, if it did. *)
Inductive WatchEnd := Running | Returned | Fatal (err : error).

(** The watcher loop over the inputs it receives, each with the files as
    they are when it is handled. *)
Fixpoint watchLoop (inputs : list (WatchInput * FileSystem)) (p : Provider)
    : Provider * WatchEnd :=
  match inputs with
  | [] => (p, Running)
  | (WatcherError err, _) :: _ => (p, Fatal err)
  | (ContextDone, _) :: _ => (p, Returned)
  | (WatcherEvent name, fs) :: rest => watchLoop rest (handleEvent fs p name).1
  end.

(** The reload failed: the configuration could not be derived again or
    the client could not be built. *)
Definition reloadFails (fs : FileSystem) (p : Provider) : Prop :=
  match getClientConfig fs p with
  | Err _ => True
  | Ok clientConfig => (setMetalClient p clientConfig).1 <> None
  end.

(** *** Requests and the watcher, interleaved *)

(** The shared field [Provider.Client].  An interface value is two words
    and Go does not assign it atomically: between the two stores the
    field is [CellTorn]. *)
Inductive Cell :=
  | CellNil
  | CellTorn
  | CellFull (c : Handle).

Definition isFull (c : Cell) : bool :=
  match c with CellFull _ => true | _ => false end.

Inductive Tid := TWatcher | TRequest (i : nat).

(** Where a request is in [Lock(); defer Unlock(); metalClient := Client;
    ... calls on metalClient ...]. *)
Inductive RequestPc :=
  | ROutside
  | RLocked
  | RUsing (metalClient : Cell).

(** Where the watcher is in [setMetalClient]. *)
Inductive WatcherPc :=
  | WIdle
  | WWantLock (restConfig : RestConfig)
  | WLocked (restConfig : RestConfig)
  | WBuilt (newClient : Handle)
  | WStoring (newClient : Handle)
  | WStored.

Record Shared :=
  { mu : option Tid;
    cell : Cell;
    watcher : WatcherPc;
    requests : gmap nat RequestPc;   (* absent: [ROutside] *)
    seen : list Cell                 (* every handle a request read or used *) }.

Definition requestPc (s : Shared) (i : nat) : RequestPc :=
  default ROutside (requests s !! i).

(** One scheduling choice: a request takes a step ([leave] says whether a
    request inside its critical section returns or makes another call on
    its client), or the watcher does, with the event and the files it
    finds when it is idle. *)
Inductive Action :=
  | ActRequest (i : nat) (leave : bool)
  | ActWatcher (name : string) (fs : FileSystem).

Definition setRequest (s : Shared) (i : nat) (pc : RequestPc) : gmap nat RequestPc :=
  <[i := pc]> (requests s).

Definition stepRequest (i : nat) (leave : bool) (s : Shared) : Shared :=
  match requestPc s i with
  | ROutside =>
      match mu s with
      | None => {| mu := Some (TRequest i); cell := cell s; watcher := watcher s;
                   requests := setRequest s i RLocked; seen := seen s |}
      | Some _ => s
      end
  | RLocked =>
      {| mu := mu s; cell := cell s; watcher := watcher s;
         requests := setRequest s i (RUsing (cell s));
         seen := seen s ++ [cell s] |}
  | RUsing metalClient =>
      if leave
      then {| mu := None; cell := cell s; watcher := watcher s;
              requests := setRequest s i ROutside; seen := seen s |}
      else {| mu := mu s; cell := cell s; watcher := watcher s;
              requests := requests s; seen := seen s ++ [metalClient] |}
  end.

Definition setWatcher (s : Shared) (m : option Tid) (c : Cell) (pc : WatcherPc)
    : Shared :=
  {| mu := m; cell := c; watcher := pc; requests := requests s; seen := seen s |}.

Definition stepWatcher (path name : string) (fs : FileSystem) (s : Shared) : Shared :=
  match watcher s with
  | WIdle =>
      if negb (String.eqb name path) then s
      else
        match getClientConfig fs {| Client := None; kubeconfigPath := path |} with
        | Err _ => s
        | Ok clientConfig =>
            match ClientConfig clientConfig with
            | Err _ => s
            | Ok restConfig => setWatcher s (mu s) (cell s) (WWantLock restConfig)
            end
        end
  | WWantLock restConfig =>
      match mu s with
      | None => setWatcher s (Some TWatcher) (cell s) (WLocked restConfig)
      | Some _ => s
      end
  | WLocked restConfig =>
      match client_New restConfig with
      | Err _ => setWatcher s None (cell s) WIdle
      | Ok newClient => setWatcher s (mu s) (cell s) (WBuilt newClient)
      end
  | WBuilt newClient => setWatcher s (mu s) CellTorn (WStoring newClient)
  | WStoring newClient => setWatcher s (mu s) (CellFull newClient) WStored
  | WStored => setWatcher s None (cell s) WIdle
  end.

Definition step (path : string) (a : Action) (s : Shared) : Shared :=
  match a with
  | ActRequest i leave => stepRequest i leave s
  | ActWatcher name fs => stepWatcher path name fs s
  end.

Definition run (path : string) (schedule : list Action) (s : Shared) : Shared :=
  fold_left (fun s a => step path a s) schedule s.

(** The provider as [NewProviderAndNamespace] hands it out: the first
    client is installed, the watcher runs, no request has started. *)
Definition initial (c0 : Handle) : Shared :=
  {| mu := None; cell := CellFull c0; watcher := WIdle; requests := ∅; seen := [] |}.

(** What holds between any two steps. *)
Definition consistent (s : Shared) : Prop :=
  Forall (fun c => isFull c = true) (seen s)
  /\ match mu s with
     | None =>
         isFull (cell s) = true
         /\ (watcher s = WIdle \/ exists r, watcher s = WWantLock r)
         /\ (forall j, requestPc s j = ROutside)
     | Some (TRequest i) =>
         isFull (cell s) = true
         /\ (watcher s = WIdle \/ exists r, watcher s = WWantLock r)
         /\ (forall j, j <> i -> requestPc s j = ROutside)
         /\ (requestPc s i = RLocked \/ requestPc s i = RUsing (cell s))
     | Some TWatcher =>
         (forall j, requestPc s j = ROutside)
         /\ match watcher s with
            | WIdle | WWantLock _ => False
            | WStoring _ => cell s = CellTorn
            | _ => isFull (cell s) = true
            end
     end.

(** Where rest configurations and clients come from: a rest configuration
    is [derived] when it was obtained from some content of the kubeconfig
    file, a client is [rotated] in when [client.New] built it from one. *)
Definition derived (restConfig : RestConfig) : Prop :=
  exists kubeconfigData kubeconfig,
    clientcmd_Load kubeconfigData = Ok kubeconfig
    /\ ClientConfig kubeconfig = Ok restConfig.

Definition rotated (c : Handle) : Prop :=
  exists restConfig, derived restConfig /\ client_New restConfig = Ok c.

Definition fromKubeconfig (c0 : Handle) (x : Cell) : Prop :=
  match x with
  | CellFull c => c = c0 \/ rotated c
  | _ => True
  end.

Definition provenance (c0 : Handle) (s : Shared) : Prop :=
  fromKubeconfig c0 (cell s)
  /\ Forall (fromKubeconfig c0) (seen s)
  /\ (forall i metalClient,
        requestPc s i = RUsing metalClient -> fromKubeconfig c0 metalClient)
  /\ match watcher s with
     | WWantLock restConfig | WLocked restConfig => derived restConfig
     | WBuilt newClient | WStoring newClient => rotated newClient
     | _ => True
     end.

End ClientProvider.

(** ** A control plane in memory *)

(** Objects by namespace and name, and a pool allocator that binds every
    pending claim once [sim_bindAfter] further claim lookups have been
    served ([None]: it never does). *)
Record Sim :=
  { sim_claims : gmap (string * string) IPAddressClaim;
    sim_addresses : gmap (string * string) IPAddress;
    sim_serverClaims : gmap (string * string) ServerClaim;
    sim_secrets : gmap (string * string) Secret;
    sim_bindAfter : option nat;
    sim_pool : IPAddress }.

Definition simKey (key : ObjectKey) : string * string := (Namespace key, Name key).

Definition bindClaim (c : IPAddressClaim) : IPAddressClaim :=
  if nonEmpty (claim_AddressRefName c) then c
  else {| claim_Name := claim_Name c;
          claim_Namespace := claim_Namespace c;
          claim_PoolRef := claim_PoolRef c;
          claim_AddressRefName := claim_Name c |}.

Definition allocate (w : Sim) : Sim :=
  match sim_bindAfter w with
  | None => w
  | Some (S n) =>
      {| sim_claims := sim_claims w; sim_addresses := sim_addresses w;
         sim_serverClaims := sim_serverClaims w; sim_secrets := sim_secrets w;
         sim_bindAfter := Some n; sim_pool := sim_pool w |}
  | Some O =>
      {| sim_claims := bindClaim <$> sim_claims w;
         sim_addresses :=
           sim_addresses w
           ∪ omap (fun c => if nonEmpty (claim_AddressRefName c) then None
                            else Some (sim_pool w)) (sim_claims w);
         sim_serverClaims := sim_serverClaims w; sim_secrets := sim_secrets w;
         sim_bindAfter := Some O; sim_pool := sim_pool w |}
  end.

Definition sim_GetClaim (key : ObjectKey) (w : Sim) : result IPAddressClaim * Sim :=
  let w := allocate w in
  match sim_claims w !! simKey key with
  | Some c => (Ok c, w)
  | None => (Err ErrNotFound, w)
  end.

Definition sim_CreateClaim (c : IPAddressClaim) (w : Sim) : result IPAddressClaim * Sim :=
  match sim_claims w !! (claim_Namespace c, claim_Name c) with
  | Some _ => (Err ErrAlreadyExists, w)
  | None =>
      (Ok c,
       {| sim_claims := <[(claim_Namespace c, claim_Name c) := c]> (sim_claims w);
          sim_addresses := sim_addresses w;
          sim_serverClaims := sim_serverClaims w; sim_secrets := sim_secrets w;
          sim_bindAfter := sim_bindAfter w; sim_pool := sim_pool w |})
  end.

Definition sim_GetAddress (key : ObjectKey) (w : Sim) : result IPAddress * Sim :=
  match sim_addresses w !! simKey key with
  | Some a => (Ok a, w)
  | None => (Err ErrNotFound, w)
  end.

Definition sim_PatchServerClaim (s : ServerClaim) (w : Sim) : result ServerClaim * Sim :=
  (Ok s,
   {| sim_claims := sim_claims w; sim_addresses := sim_addresses w;
      sim_serverClaims := <[(sc_Namespace s, sc_Name s) := s]> (sim_serverClaims w);
      sim_secrets := sim_secrets w;
      sim_bindAfter := sim_bindAfter w; sim_pool := sim_pool w |}).

Definition sim_PatchSecret (s : Secret) (w : Sim) : result Secret * Sim :=
  (Ok s,
   {| sim_claims := sim_claims w; sim_addresses := sim_addresses w;
      sim_serverClaims := sim_serverClaims w;
      sim_secrets := <[(sec_Namespace s, sec_Name s) := s]> (sim_secrets w);
      sim_bindAfter := sim_bindAfter w; sim_pool := sim_pool w |}).

#[export] Instance Sim_Client : ClientInterface Sim :=
  {| cl_GetClaim := sim_GetClaim;
     cl_CreateClaim := sim_CreateClaim;
     cl_GetAddress := sim_GetAddress;
     cl_PatchServerClaim := sim_PatchServerClaim;
     cl_PatchSecret := sim_PatchSecret |}.

(** The scenario of the examples: machine [m1], one network reference
    ([eth0] from pool [pool-a]), address 10.0.0.5/24 by gateway 10.0.0.1. *)
Definition poolA : IPAMObjectReference :=
  {| ref_Name := "pool-a"; ref_APIGroup := capiGroup; ref_Kind := "GlobalInClusterIPPool" |}.

Definition eth0 : IPAMConfig := {| MetadataKey := "eth0"; IPAMRef := Some poolA |}.

Definition specOf (refs : list IPAMConfig) : ProviderSpec :=
  {| ps_Image := "os-image:1"; ps_Ignition := ""; ps_IgnitionOverride := false;
     ps_Metadata := None; ps_IPAMConfig := refs;
     ps_Labels := ∅; ps_ServerLabels := {[ "size" := "m" ]}; ps_DnsServers := [] |}.

(** Collaborators for the examples; the decoder yields a spec with the
    given references and the renderer echoes the user data. *)
Definition depsOf (refs : list IPAMConfig) : Collaborators :=
  {| unmarshalProviderSpec := fun _ => Ok (specOf refs);
     ValidateProviderSpecAndSecret := fun _ _ => [];
     ignition_File := fun config => Ok (ign_UserData config);
     getIgnitionNameForMachine := fun name => name +:+ "-ignition";
     getProviderIDForServerClaim :=
       fun s => ProviderName +:+ "://" +:+ sc_Namespace s +:+ "/" +:+ sc_Name s;
     fieldOwner := "mcm.ironcore.dev/field-owner";
     timerTicks := fun interval timeout => timeout / interval |}.

Definition theDriver : metalDriver := {| metalNamespace := "metal" |}.

Definition requestFor (machineName : string) : option CreateMachineRequest :=
  Some {| req_MachineClass :=
            Some {| mc_Provider := ProviderName; mc_ProviderSpecRaw := "{}" |};
          req_Machine := Some {| m_Name := machineName |};
          req_Secret :=
            Some {| sec_APIVersion := "v1"; sec_Kind := "Secret";
                    sec_Name := "m1-secret"; sec_Namespace := "default";
                    sec_Data := {[ "userData" := "#cloud-config" ]} |} |}.

Definition address5 : IPAddress :=
  {| addr_Address := "10.0.0.5"; addr_Prefix := 24; addr_Gateway := "10.0.0.1" |}.

(** An empty control plane whose allocator answers after [n] lookups. *)
Definition emptySim (bindAfter : option nat) : Sim :=
  {| sim_claims := ∅; sim_addresses := ∅; sim_serverClaims := ∅; sim_secrets := ∅;
     sim_bindAfter := bindAfter; sim_pool := address5 |}.

Definition claimOf (machineName : string) (networkRef : IPAMConfig)
    (ref : IPAMObjectReference) (addressRef : string) : IPAddressClaim :=
  {| claim_Name := ipAddrClaimName machineName (MetadataKey networkRef);
     claim_Namespace := metalNamespace theDriver;
     claim_PoolRef := {| pool_APIGroup := Some (ref_APIGroup ref);
                         pool_Kind := ref_Kind ref; pool_Name := ref_Name ref |};
     claim_AddressRefName := addressRef |}.

(** A control plane that already holds the claim [m1-eth0]. *)
Definition simWithClaim (addressRef : string) (bindAfter : option nat) : Sim :=
  {| sim_claims := {[ ("metal", "m1-eth0") := claimOf "m1" eth0 poolA addressRef ]};
     sim_addresses := if nonEmpty addressRef
                      then {[ ("metal", addressRef) := address5 ]} else ∅;
     sim_serverClaims := ∅; sim_secrets := ∅;
     sim_bindAfter := bindAfter; sim_pool := address5 |}.

(** ** Reading traces *)

Definition isCreate (ev : Event) : bool :=
  match ev with EvCreate _ _ => true | _ => false end.

Definition isPatch (ev : Event) : bool :=
  match ev with EvPatch _ _ _ _ _ => true | _ => false end.

Definition isGet (ev : Event) : bool :=
  match ev with EvGet _ _ _ => true | _ => false end.

Definition isWrite (ev : Event) : bool := isCreate ev || isPatch ev.

(** A server-side apply with forced ownership. *)
Definition isForcedApply (ev : Event) : bool :=
  match ev with
  | EvPatch _ ApplyPatch _ true _ => true
  | _ => false
  end.

Definition isApplyOf (k : Kind) (ev : Event) : bool :=
  match ev with
  | EvPatch o _ _ _ _ => bool_decide (kindOf o = k)
  | _ => false
  end.

Definition isCreateOfClaim (name : string) (ev : Event) : bool :=
  match ev with
  | EvCreate (OClaim c) _ => String.eqb (claim_Name c) name
  | _ => false
  end.

Definition countWhere (p : Event -> bool) (tr : list Event) : nat :=
  length (filter (fun ev => p ev = true) tr).

(** Some event satisfying [a] comes before some event satisfying [b]. *)
Fixpoint precedes (a b : Event -> bool) (tr : list Event) : bool :=
  match tr with
  | [] => false
  | ev :: rest => (a ev && existsb b rest) || precedes a b rest
  end.

(** The first [n] answers the control plane gives to successive lookups of
    a claim. *)
Fixpoint lookups {W} `{ClientInterface W} (n : nat) (key : ObjectKey) (w : W)
    : list (result IPAddressClaim) :=
  match n with
  | O => []
  | S n' => match cl_GetClaim key w with
            | (r, w') => r :: lookups n' key w'
            end
  end.

(** The answer shows no bound claim: the claim carries no address
    reference, or the lookup says not found. *)
Definition unboundAnswer (r : result IPAddressClaim) : bool :=
  match r with
  | Ok c => negb (nonEmpty (claim_AddressRefName c))
  | Err e => IsNotFound e
  end.

(** Every event a computation issues satisfies [P], whatever the world. *)
Definition issuesOnly {W A} (P : Event -> bool) (m : M W A) : Prop :=
  forall w, Forall (fun ev => P ev = true) (trace (m w)).

(** Reads, and the create of an address claim. *)
Definition isGetOrCreate (ev : Event) : bool := isGet ev || isCreate ev.

(** Everything but a patch. *)
Definition notPatch (ev : Event) : bool := negb (isPatch ev).

(** The write discipline of the driver: a patch is a server-side apply with
    forced ownership, and a create is the create of an address claim that
    comes right after a lookup of that claim answered not found. *)
Inductive Disciplined : list Event -> Prop :=
  | Disciplined_nil : Disciplined []
  | Disciplined_other ev tr :
      isWrite ev = false -> Disciplined tr -> Disciplined (ev :: tr)
  | Disciplined_apply ev tr :
      isForcedApply ev = true -> Disciplined tr -> Disciplined (ev :: tr)
  | Disciplined_create key e c err tr :
      IsNotFound e = true ->
      key = {| Namespace := claim_Namespace c; Name := claim_Name c |} ->
      Disciplined tr ->
      Disciplined (EvGet KClaim key (Some e) :: EvCreate (OClaim c) err :: tr).

(** A network reference that [applyIPAddresses] passes over: its pool
    belongs to another IPAM API group. *)
Definition eth1Foreign : IPAMConfig :=
  {| MetadataKey := "eth1";
     IPAMRef := Some {| ref_Name := "pool-b";
                        ref_APIGroup := "ipam.metal.ironcore.dev";
                        ref_Kind := "Prefix" |} |}.

(** A network reference without a pool. *)
Definition eth2NoPool : IPAMConfig := {| MetadataKey := "eth2"; IPAMRef := None |}.

(** A provider for the examples: a kubeconfig is taken as its text, it
    yields a rest configuration when it names a server, and a client is
    known by the configuration it was built from. *)
Definition exampleLoad (data : string) : result string :=
  if String.eqb data "" then Err (ErrAPI "empty kubeconfig") else Ok data.

Definition exampleClientConfig (kubeconfig : string) : result string :=
  if String.prefix "server: " kubeconfig then Ok kubeconfig
  else Err (ErrAPI "invalid configuration: no configuration has been provided").

Definition exampleNew (restConfig : string) : result string :=
  Ok ("client of " +:+ restConfig).

Definition examplePath : string := "/etc/metal/kubeconfig".

Definition exampleProvider : Provider :=
  {| Client := Some "client of server: https://10.0.0.1";
     kubeconfigPath := examplePath |}.

(** The file after a rotation that went wrong. *)
Definition brokenFiles : FileSystem := {[ examplePath := "apiVersion: v1" ]}.

(** A name longer than the maximum, for the examples. *)
Definition longMachineName : string :=
  String.string_of_list_ascii (replicate 260 (Ascii.ascii_of_nat 97)).




(** ** The mutex in a trace *)

(** Whether the mutex is held after [tr] when it is [held] before; [None]
    when the trace locks a held mutex, unlocks a free one, or calls the
    control plane without holding it. *)
Fixpoint lockedAfter (held : bool) (tr : list Event) : option bool :=
  match tr with
  | [] => Some held
  | EvLock :: rest => if held then None else lockedAfter true rest
  | EvUnlock :: rest => if held then lockedAfter false rest else None
  | _ :: rest => if held then lockedAfter true rest else None
  end.

(** The trace starts and ends with the mutex free and makes every call
    while it holds it. *)
Definition wellLocked (tr : list Event) : bool :=
  match lockedAfter false tr with
  | Some false => true
  | _ => false
  end.

(** A call to the control plane. *)
Definition isCall (ev : Event) : bool :=
  match ev with
  | EvLock | EvUnlock => false
  | _ => true
  end.

(** The metadata that [applyCapiIPAddress] returns for an address. *)
Definition addressFragment (networkRef : IPAMConfig) (ipAddr : IPAddress)
    : gmap string value :=
  {[ MetadataKey networkRef :=
       VMap {[ "ip" := VStr (addr_Address ipAddr);
               "prefix" := VNum (addr_Prefix ipAddr);
               "gateway" := VStr (addr_Gateway ipAddr) ]} ]}.

(** The claim that an event creates, if it creates one. *)
Definition createdClaim (ev : Event) : option IPAddressClaim :=
  match ev with
  | EvCreate (OClaim c) _ => Some c
  | _ => None
  end.

(** The error that the call of an event returned, if the event is a call
    that failed. *)
Definition errorOf (ev : Event) : option error :=
  match ev with
  | EvGet _ _ err => err
  | EvCreate _ err => err
  | EvPatch _ _ _ _ err => err
  | _ => None
  end.

(** What an event may write for the machine of a request. *)
Definition writesFor (deps : Collaborators) (d : metalDriver) (machineName : string)
    (providerSpec : ProviderSpec) (ev : Event) : Prop :=
  match ev with
  | EvPatch (OServerClaim sc) _ _ _ _ =>
      sc_Name sc = machineName
      /\ sc_Namespace sc = metalNamespace d
      /\ sc_Power sc = "On"
      /\ sc_IgnitionSecretRef sc = getIgnitionNameForMachine deps machineName
      /\ sc_Image sc = ps_Image providerSpec
      /\ sc_Labels sc = ps_Labels providerSpec
      /\ sc_MatchLabels sc = ps_ServerLabels providerSpec
  | EvPatch (OSecret s) _ _ _ _ =>
      sec_Name s = getIgnitionNameForMachine deps machineName
      /\ sec_Namespace s = metalNamespace d
      /\ sec_Kind s = "Secret"
      /\ exists content, sec_Data s = {[ "ignition" := content ]}
  | EvPatch (OClaim _) _ _ _ _ => False
  | _ => True
  end.

(** A machine secret without user data, and the request for [m1] with it. *)
Definition bareSecret : Secret :=
  {| sec_APIVersion := "v1"; sec_Kind := "Secret";
     sec_Name := "m1-secret"; sec_Namespace := "default"; sec_Data := ∅ |}.

Definition bareRequest : option CreateMachineRequest :=
  Some {| req_MachineClass :=
            Some {| mc_Provider := ProviderName; mc_ProviderSpecRaw := "{}" |};
          req_Machine := Some {| m_Name := "m1" |};
          req_Secret := Some bareSecret |}.

(** * Properties *)

(** ** Claim names *)

Lemma length_substring_0 (n : nat) (s : string) :
  String.length (String.substring 0 n s) = Nat.min n (String.length s).
Proof.
  revert n. induction s as [|c s IH]; intros [|n]; simpl; try reflexivity.
  now rewrite IH.
Qed.

Lemma ipAddrClaimName_long (machineName metadataKey : string) :
  DNS1123SubdomainMaxLength < String.length (machineName +:+ "-" +:+ metadataKey) ->
  ipAddrClaimName machineName metadataKey
  = String.substring 0 DNS1123SubdomainMaxLength (machineName +:+ "-" +:+ metadataKey).
Proof.
  intros Hlen. unfold ipAddrClaimName.
  destruct (Nat.ltb_spec DNS1123SubdomainMaxLength
              (String.length (machineName +:+ "-" +:+ metadataKey))); [reflexivity | lia].
Qed.

Lemma ipAddrClaimName_short (machineName metadataKey : string) :
  String.length (machineName +:+ "-" +:+ metadataKey) <= DNS1123SubdomainMaxLength ->
  ipAddrClaimName machineName metadataKey = machineName +:+ "-" +:+ metadataKey.
Proof.
  intros Hlen. unfold ipAddrClaimName.
  destruct (Nat.ltb_spec DNS1123SubdomainMaxLength
              (String.length (machineName +:+ "-" +:+ metadataKey))); [lia | reflexivity].
Qed.

Lemma substring_0_all (n : nat) (s : string) :
  String.length s <= n -> String.substring 0 n s = s.
Proof.
  revert n. induction s as [|c s IH]; intros [|n] Hlen; simpl in *;
    try reflexivity; try lia.
  f_equal. apply IH. lia.
Qed.

(** The claim name is always the first 253 bytes of the full name. *)
Lemma ipAddrClaimName_prefix (machineName metadataKey : string) :
  ipAddrClaimName machineName metadataKey
  = String.substring 0 DNS1123SubdomainMaxLength (machineName +:+ "-" +:+ metadataKey).
Proof.
  destruct (Nat.le_gt_cases
              (String.length (machineName +:+ "-" +:+ metadataKey))
              DNS1123SubdomainMaxLength) as [Hshort|Hlong].
  - rewrite ipAddrClaimName_short, substring_0_all by exact Hshort. reflexivity.
  - now apply ipAddrClaimName_long.
Qed.

(** C8. A claim name is the machine name, a dash and the metadata key.  When
    that is longer than the maximum length of a DNS-1123 subdomain (253), the
    claim name is exactly its first 253 bytes; a name of at most 253 bytes is
    used as it is; and any two inputs whose full names have the same first
    253 bytes get the same claim name. *)
Theorem claim_name_truncation (machineName metadataKey : string) :
  let full := machineName +:+ "-" +:+ metadataKey in
  (DNS1123SubdomainMaxLength < String.length full ->
     String.length (ipAddrClaimName machineName metadataKey) = DNS1123SubdomainMaxLength
     /\ ipAddrClaimName machineName metadataKey
        = String.substring 0 DNS1123SubdomainMaxLength full)
  /\ (String.length full <= DNS1123SubdomainMaxLength ->
      ipAddrClaimName machineName metadataKey = full)
  /\ (forall machineName' metadataKey',
        String.substring 0 DNS1123SubdomainMaxLength full
        = String.substring 0 DNS1123SubdomainMaxLength
            (machineName' +:+ "-" +:+ metadataKey') ->
        ipAddrClaimName machineName metadataKey
        = ipAddrClaimName machineName' metadataKey').
Proof.
  intros full. split; [|split].
  - intros Hlong. pose proof (ipAddrClaimName_long _ _ Hlong) as Hcut.
    fold full in Hcut. split; [|exact Hcut].
    rewrite Hcut, length_substring_0. lia.
  - apply ipAddrClaimName_short.
  - intros machineName' metadataKey' Hsame.
    now rewrite !ipAddrClaimName_prefix.
Qed.

(** A machine name of 260 bytes: the claim names for [eth0] and [eth1] are the
    same 253 bytes; the short name [m1-eth0] is kept. *)
Lemma claim_name_truncation_witness :
  String.length (ipAddrClaimName longMachineName "eth0") = 253
  /\ ipAddrClaimName longMachineName "eth0" = ipAddrClaimName longMachineName "eth1"
  /\ ipAddrClaimName "m1" "eth0" = "m1-eth0".
Proof.
  pose proof (claim_name_truncation longMachineName "eth0") as (Hlong & _ & Hsame).
  pose proof (claim_name_truncation "m1" "eth0") as (_ & Hshort & _).
  split; [|split].
  - apply Hlong. vm_compute. lia.
  - apply Hsame. vm_compute. reflexivity.
  - apply Hshort. vm_compute. lia.
Defined.

(** ** Merging metadata *)








(** ** The driver monad *)

Section MonadFacts.
Context {W : Type}.

Lemma bind_ok {A B} (m : M W A) (f : A -> M W B) w a w1 t1 :
  m w = (Ok a, w1, t1) ->
  bind m f w = (outcome (f a w1), world (f a w1), t1 ++ trace (f a w1)).
Proof.
  intros Hm. unfold bind, outcome, world, trace. rewrite Hm.
  now destruct (f a w1) as [[r w2] t2].
Qed.

Lemma bind_err {A B} (m : M W A) (f : A -> M W B) w e w1 t1 :
  m w = (Err e, w1, t1) -> bind m f w = (Err e, w1, t1).
Proof. intros Hm. unfold bind. now rewrite Hm. Qed.

Lemma issuesOnly_ret {A} P (a : A) : issuesOnly P (@ret W A a).
Proof. intros w. constructor. Qed.

Lemma issuesOnly_fail {A} P e : issuesOnly P (@fail W A e).
Proof. intros w. constructor. Qed.

Lemma issuesOnly_bind {A B} P (m : M W A) (f : A -> M W B) :
  issuesOnly P m -> (forall a, issuesOnly P (f a)) -> issuesOnly P (bind m f).
Proof.
  intros Hm Hf w. specialize (Hm w). unfold bind, trace in *.
  destruct (m w) as [[[a|e] w1] t1]; simpl in *; [|exact Hm].
  specialize (Hf a w1). destruct (f a w1) as [[r w2] t2]; simpl in *.
  apply Forall_app; split; assumption.
Qed.

Lemma issuesOnly_withLock {A} P (m : M W A) :
  P EvLock = true -> P EvUnlock = true ->
  issuesOnly P m -> issuesOnly P (withLock m).
Proof.
  intros Hl Hu Hm w. specialize (Hm w). unfold withLock, trace in *.
  destruct (m w) as [[r w1] t]; simpl in *.
  constructor; [exact Hl|]. apply Forall_app; split; [exact Hm|].
  constructor; [exact Hu | constructor].
Qed.

Lemma countWhere_app P (t1 t2 : list Event) :
  countWhere P (t1 ++ t2) = countWhere P t1 + countWhere P t2.
Proof. unfold countWhere. now rewrite filter_app, length_app. Qed.

Lemma countWhere_none P Q (t : list Event) :
  (forall ev, Q ev = true -> P ev = false) ->
  Forall (fun ev => Q ev = true) t -> countWhere P t = 0.
Proof.
  intros HPQ Ht. unfold countWhere.
  induction Ht as [|ev t Hev _ IH]; [reflexivity|].
  rewrite filter_cons. destruct (decide (P ev = true)) as [Hp|_]; [|exact IH].
  rewrite (HPQ ev Hev) in Hp. discriminate.
Qed.

Lemma filter_none P Q (t : list Event) :
  (forall ev, Q ev = true -> P ev = false) ->
  Forall (fun ev => Q ev = true) t -> filter (fun ev => P ev = true) t = [].
Proof.
  intros HPQ Ht. induction Ht as [|ev t Hev _ IH]; [reflexivity|].
  rewrite filter_cons. destruct (decide (P ev = true)) as [Hp|_]; [|exact IH].
  rewrite (HPQ ev Hev) in Hp. discriminate.
Qed.

End MonadFacts.

(** ** The allocator *)

Section AllocatorFacts.
Context {W : Type} {C : ClientInterface W} (deps : Collaborators).
Implicit Types (w : W) (d : metalDriver) (networkRef : IPAMConfig).

Lemma resolveAddress_trace networkRef c w :
  trace (resolveAddress networkRef c w)
  = [EvGet KAddress {| Namespace := claim_Namespace c;
                       Name := claim_AddressRefName c |}
           (errOf (cl_GetAddress {| Namespace := claim_Namespace c;
                                    Name := claim_AddressRefName c |} w).1)].
Proof.
  unfold resolveAddress, bind, Get_address, trace.
  destruct (cl_GetAddress _ w) as [[a|e] w1]; reflexivity.
Qed.

Lemma resolveAddress_reads networkRef c : issuesOnly isGet (resolveAddress networkRef c).
Proof.
  intros w. rewrite resolveAddress_trace. repeat constructor.
Qed.

Lemma claimReady_reads key c : issuesOnly isGet (claimReady key c).
Proof.
  intros w. unfold claimReady, bind, Get_claim, trace.
  destruct (cl_GetClaim key w) as [[c'|e] w1]; simpl.
  - repeat constructor.
  - destruct (IsNotFound e); simpl; repeat constructor.
Qed.

Lemma poll_reads ticks key c :
  issuesOnly isGet (pollLoop ticks (claimReady key) c).
Proof.
  revert c. induction ticks as [|n IH]; intros c; simpl;
    apply issuesOnly_bind; try apply claimReady_reads;
    intros [done c']; simpl; destruct done;
    auto using issuesOnly_ret, issuesOnly_fail.
Qed.

(** The lookup failed with something other than not-found. *)
Lemma applyCapi_lookup_error d networkRef machineName w e w1 :
  cl_GetClaim (ipAddrClaimKey d networkRef machineName) w = (Err e, w1) ->
  IsNotFound e = false ->
  applyCapiIPAddress deps d networkRef machineName w
  = (Err e, w1, [EvGet KClaim (ipAddrClaimKey d networkRef machineName) (Some e)]).
Proof.
  intros Hget Hnf. unfold applyCapiIPAddress, bind, Get_claim.
  rewrite Hget; simpl. rewrite Hnf. reflexivity.
Qed.

(** The claim is there and carries no address. *)
Lemma applyCapi_found_unbound d networkRef machineName w c w1 :
  cl_GetClaim (ipAddrClaimKey d networkRef machineName) w = (Ok c, w1) ->
  nonEmpty (claim_AddressRefName c) = false ->
  applyCapiIPAddress deps d networkRef machineName w
  = (Err (ErrNew "IP address claim isn't ready"), w1,
     [EvGet KClaim (ipAddrClaimKey d networkRef machineName) None]).
Proof.
  intros Hget Hun. unfold applyCapiIPAddress, bind, Get_claim.
  rewrite Hget; simpl. rewrite Hun. reflexivity.
Qed.

(** The claim is there and bound. *)
Lemma applyCapi_found_bound d networkRef machineName w c w1 :
  cl_GetClaim (ipAddrClaimKey d networkRef machineName) w = (Ok c, w1) ->
  nonEmpty (claim_AddressRefName c) = true ->
  applyCapiIPAddress deps d networkRef machineName w
  = (outcome (resolveAddress networkRef c w1),
     world (resolveAddress networkRef c w1),
     EvGet KClaim (ipAddrClaimKey d networkRef machineName) None
     :: trace (resolveAddress networkRef c w1)).
Proof.
  intros Hget Hb. unfold applyCapiIPAddress, bind, Get_claim, outcome, world, trace.
  rewrite Hget; simpl. rewrite Hb.
  now destruct (resolveAddress networkRef c w1) as [[r w2] t].
Qed.

(** The claim is not there and the reference names no pool. *)
Lemma applyCapi_no_pool d networkRef machineName w e w1 :
  cl_GetClaim (ipAddrClaimKey d networkRef machineName) w = (Err e, w1) ->
  IsNotFound e = true ->
  IPAMRef networkRef = None ->
  applyCapiIPAddress deps d networkRef machineName w
  = (Err (ErrNew "ipamRef of an ipamConfig is not set"), w1,
     [EvGet KClaim (ipAddrClaimKey d networkRef machineName) (Some e)]).
Proof.
  intros Hget Hnf Hnone. unfold applyCapiIPAddress, bind, Get_claim.
  rewrite Hget; simpl. rewrite Hnf, Hnone. reflexivity.
Qed.

(** The claim is not there and creating it fails. *)
Lemma applyCapi_create_error d networkRef machineName w e w1 ref e' w2 :
  cl_GetClaim (ipAddrClaimKey d networkRef machineName) w = (Err e, w1) ->
  IsNotFound e = true ->
  IPAMRef networkRef = Some ref ->
  cl_CreateClaim (newClaim (ipAddrClaimKey d networkRef machineName) ref) w1
  = (Err e', w2) ->
  applyCapiIPAddress deps d networkRef machineName w
  = (Err (ErrWrap "error creating IP" e'), w2,
     [EvGet KClaim (ipAddrClaimKey d networkRef machineName) (Some e);
      EvCreate (OClaim (newClaim (ipAddrClaimKey d networkRef machineName) ref))
               (Some e')]).
Proof.
  intros Hget Hnf Href Hcreate. unfold applyCapiIPAddress, bind, Get_claim, Create_claim.
  rewrite Hget; simpl. rewrite Hnf, Href; simpl. rewrite Hcreate. reflexivity.
Qed.

(** The claim is not there and is created: the wait follows. *)
Lemma applyCapi_created d networkRef machineName w e w1 ref c w2 :
  cl_GetClaim (ipAddrClaimKey d networkRef machineName) w = (Err e, w1) ->
  IsNotFound e = true ->
  IPAMRef networkRef = Some ref ->
  cl_CreateClaim (newClaim (ipAddrClaimKey d networkRef machineName) ref) w1
  = (Ok c, w2) ->
  applyCapiIPAddress deps d networkRef machineName w
  = (outcome (waitAndResolve deps d networkRef machineName c w2),
     world (waitAndResolve deps d networkRef machineName c w2),
     EvGet KClaim (ipAddrClaimKey d networkRef machineName) (Some e)
     :: EvCreate (OClaim (newClaim (ipAddrClaimKey d networkRef machineName) ref)) None
     :: trace (waitAndResolve deps d networkRef machineName c w2)).
Proof.
  intros Hget Hnf Href Hcreate.
  unfold applyCapiIPAddress, waitAndResolve, Get_claim, Create_claim.
  unfold bind at 1. rewrite Hget; simpl. rewrite Hnf, Href; simpl.
  unfold bind at 1. rewrite Hcreate; simpl.
  unfold outcome, world, trace.
  match goal with |- context [bind ?m ?f w2] => destruct (bind m f w2) as [[r w3] t] end.
  reflexivity.
Qed.

Lemma waitAndResolve_reads d networkRef machineName c :
  issuesOnly isGet (waitAndResolve deps d networkRef machineName c).
Proof.
  apply issuesOnly_bind; [apply poll_reads | intros; apply resolveAddress_reads].
Qed.

Lemma claimReady_found key c w c' w1 :
  cl_GetClaim key w = (Ok c', w1) ->
  claimReady key c w
  = (Ok (nonEmpty (claim_AddressRefName c'), c'), w1, [EvGet KClaim key None]).
Proof.
  intros Hget. unfold claimReady, bind, Get_claim. now rewrite Hget.
Qed.

Lemma claimReady_not_found key c w e w1 :
  cl_GetClaim key w = (Err e, w1) ->
  IsNotFound e = true ->
  claimReady key c w
  = (Ok (nonEmpty (claim_AddressRefName c), c), w1, [EvGet KClaim key (Some e)]).
Proof.
  intros Hget Hnf. unfold claimReady, bind, Get_claim. rewrite Hget. simpl.
  now rewrite Hnf.
Qed.

Lemma poll_unfold {S : Type} ticks (cond : S -> M W (bool * S)) s :
  pollLoop ticks cond s
  = bind (cond s)
      (fun r => if r.1 then ret r.2
                else match ticks with
                     | O => fail ErrDeadlineExceeded
                     | Datatypes.S n => pollLoop n cond r.2
                     end).
Proof. destruct ticks; reflexivity. Qed.

(** A lookup that shows no bound claim leaves the wait where it was, one
    tick later. *)
Lemma poll_step ticks key c w r w1 c1 :
  cl_GetClaim key w = (r, w1) ->
  unboundAnswer r = true ->
  nonEmpty (claim_AddressRefName c) = false ->
  c1 = match r with Ok c' => c' | Err _ => c end ->
  nonEmpty (claim_AddressRefName c1) = false
  /\ pollLoop ticks (claimReady key) c w
     = match ticks with
       | O => (Err ErrDeadlineExceeded, w1, [EvGet KClaim key (errOf r)])
       | Datatypes.S n =>
           (outcome (pollLoop n (claimReady key) c1 w1),
            world (pollLoop n (claimReady key) c1 w1),
            EvGet KClaim key (errOf r)
            :: trace (pollLoop n (claimReady key) c1 w1))
       end.
Proof.
  intros Hget Hun Hc ->. rewrite poll_unfold.
  destruct r as [c'|e]; simpl in Hun.
  - apply negb_true_iff in Hun. split; [exact Hun|].
    rewrite (bind_ok _ _ _ _ _ _ (claimReady_found key c w c' w1 Hget)).
    simpl. rewrite Hun. destruct ticks; reflexivity.
  - split; [exact Hc|].
    rewrite (bind_ok _ _ _ _ _ _ (claimReady_not_found key c w e w1 Hget Hun)).
    simpl. rewrite Hc. destruct ticks; reflexivity.
Qed.

(** No lookup within the deadline shows the claim bound: the wait ends
    with the deadline error, after one lookup per attempt and nothing
    else. *)
Lemma poll_timeout ticks key : forall c w,
  nonEmpty (claim_AddressRefName c) = false ->
  forallb unboundAnswer (lookups (S ticks) key w) = true ->
  outcome (pollLoop ticks (claimReady key) c w) = Err ErrDeadlineExceeded
  /\ length (trace (pollLoop ticks (claimReady key) c w)) = S ticks.
Proof.
  induction ticks as [|n IH]; intros c w Hc Hun;
    cbn [lookups] in Hun; destruct (cl_GetClaim key w) as [r w1] eqn:Hget;
    cbn [forallb] in Hun; apply andb_true_iff in Hun as [Hhd Htl].
  - destruct (poll_step 0 key c w r w1 _ Hget Hhd Hc eq_refl) as [Hc1 ->].
    split; reflexivity.
  - destruct (poll_step (S n) key c w r w1 _ Hget Hhd Hc eq_refl) as [Hc1 ->].
    destruct (IH _ w1 Hc1 Htl) as [Ho Hl]. unfold outcome, trace in *. simpl.
    split; [exact Ho | now rewrite Hl].
Qed.

(** A lookup shows the claim bound: the wait ends there with that claim,
    however many ticks remain. *)
Lemma poll_bound_now ticks key c w cb w1 :
  cl_GetClaim key w = (Ok cb, w1) ->
  nonEmpty (claim_AddressRefName cb) = true ->
  pollLoop ticks (claimReady key) c w
  = (Ok cb, w1, [EvGet KClaim key None]).
Proof.
  intros Hget Hb. rewrite poll_unfold.
  rewrite (bind_ok _ _ _ _ _ _ (claimReady_found key c w cb w1 Hget)).
  simpl. rewrite Hb. reflexivity.
Qed.

(** A reference that is not of the cluster-API group is passed over. *)
Lemma applyNetworkRefs_skip d machineName networkRef rest acc :
  isCapiRef networkRef = false ->
  applyNetworkRefs deps d machineName (networkRef :: rest) acc
  = applyNetworkRefs deps d machineName rest acc.
Proof. intros Hskip. simpl. now rewrite Hskip. Qed.

Lemma applyNetworkRefs_dispatch d machineName networkRef rest acc :
  isCapiRef networkRef = true ->
  applyNetworkRefs deps d machineName (networkRef :: rest) acc
  = bind (applyCapiIPAddress deps d networkRef machineName)
      (fun addressMetaData =>
         applyNetworkRefs deps d machineName rest (acc ++ [addressMetaData])).
Proof. intros Hcapi. simpl. now rewrite Hcapi. Qed.

End AllocatorFacts.

Lemma nonEmpty_empty (s : string) : s = "" -> nonEmpty s = false.
Proof. intros ->. reflexivity. Qed.

Lemma isCapiRef_no_pool (networkRef : IPAMConfig) :
  IPAMRef networkRef = None -> isCapiRef networkRef = false.
Proof. intros Hnone. unfold isCapiRef. now rewrite Hnone. Qed.

(** C2, as the code has it.  When the lookup finds the address claim and the
    claim carries no address reference, [applyCapiIPAddress] fails at once
    with "IP address claim isn't ready": the lookup is its only call, there
    is no wait.  The wait follows only a claim that the same call has just
    created. *)
Theorem unbound_claim_fails_at_once {W : Type} {C : ClientInterface W}
    (deps : Collaborators) (d : metalDriver) (networkRef : IPAMConfig)
    (machineName : string) (w : W) :
  (forall c w1,
     cl_GetClaim (ipAddrClaimKey d networkRef machineName) w = (Ok c, w1) ->
     claim_AddressRefName c = "" ->
     applyCapiIPAddress deps d networkRef machineName w
     = (Err (ErrNew "IP address claim isn't ready"), w1,
        [EvGet KClaim (ipAddrClaimKey d networkRef machineName) None]))
  /\ (forall e w1 ref c w2,
        cl_GetClaim (ipAddrClaimKey d networkRef machineName) w = (Err e, w1) ->
        IsNotFound e = true ->
        IPAMRef networkRef = Some ref ->
        cl_CreateClaim (newClaim (ipAddrClaimKey d networkRef machineName) ref) w1
        = (Ok c, w2) ->
        applyCapiIPAddress deps d networkRef machineName w
        = (outcome (waitAndResolve deps d networkRef machineName c w2),
           world (waitAndResolve deps d networkRef machineName c w2),
           EvGet KClaim (ipAddrClaimKey d networkRef machineName) (Some e)
           :: EvCreate
                (OClaim (newClaim (ipAddrClaimKey d networkRef machineName) ref)) None
           :: trace (waitAndResolve deps d networkRef machineName c w2))).
Proof.
  split.
  - intros c w1 Hget Hempty.
    eapply applyCapi_found_unbound; [exact Hget | now apply nonEmpty_empty].
  - intros e w1 ref c w2 Hget Hnf Href Hcreate.
    eapply applyCapi_created; eassumption.
Qed.

(** The claim [m1-eth0] exists unbound and no allocator is at work. *)
Lemma unbound_claim_fails_at_once_witness :
  applyCapiIPAddress (depsOf [eth0]) theDriver eth0 "m1" (simWithClaim "" None)
  = (Err (ErrNew "IP address claim isn't ready"), simWithClaim "" None,
     [EvGet KClaim (ipAddrClaimKey theDriver eth0 "m1") None]).
Proof.
  apply (proj1 (unbound_claim_fails_at_once (depsOf [eth0]) theDriver eth0 "m1"
                  (simWithClaim "" None))
           (claimOf "m1" eth0 poolA "")).
  - vm_compute. reflexivity.
  - reflexivity.
Defined.

(** The claim [m1-eth0] exists unbound and the allocator binds it right
    after the first lookup: a second lookup would show it bound, but the
    call has already failed after the first. *)
Lemma unbound_claim_is_not_awaited :
  map unboundAnswer
    (lookups 2 (ipAddrClaimKey theDriver eth0 "m1") (simWithClaim "" (Some 1)))
  = [true; false]
  /\ outcome (applyCapiIPAddress (depsOf [eth0]) theDriver eth0 "m1"
                (simWithClaim "" (Some 1)))
     = Err (ErrNew "IP address claim isn't ready")
  /\ trace (applyCapiIPAddress (depsOf [eth0]) theDriver eth0 "m1"
              (simWithClaim "" (Some 1)))
     = [EvGet KClaim {| Namespace := "metal"; Name := "m1-eth0" |} None].
Proof. vm_compute. repeat split; reflexivity. Qed.

(** C3, as the code has it.  [applyCapiIPAddress], given a reference
    without a pool whose claim the lookup does not find, fails with
    "ipamRef of an ipamConfig is not set" and writes nothing.  The loop of
    [applyIPAddresses] never hands it such a reference: a reference without
    a pool is passed over without any call. *)
Theorem missing_pool_rejected_or_passed_over {W : Type} {C : ClientInterface W}
    (deps : Collaborators) (d : metalDriver) (networkRef : IPAMConfig)
    (machineName : string) :
  IPAMRef networkRef = None ->
  (forall (w : W) e w1,
     cl_GetClaim (ipAddrClaimKey d networkRef machineName) w = (Err e, w1) ->
     IsNotFound e = true ->
     applyCapiIPAddress deps d networkRef machineName w
     = (Err (ErrNew "ipamRef of an ipamConfig is not set"), w1,
        [EvGet KClaim (ipAddrClaimKey d networkRef machineName) (Some e)]))
  /\ (forall rest acc,
        @applyNetworkRefs W C deps d machineName (networkRef :: rest) acc
        = applyNetworkRefs deps d machineName rest acc).
Proof.
  intros Hnone. split.
  - intros w e w1 Hget Hnf. now apply applyCapi_no_pool.
  - intros rest acc. apply applyNetworkRefs_skip. now apply isCapiRef_no_pool.
Qed.

(** The allocator of one reference, called on a reference without a pool
    over an empty control plane. *)
Lemma missing_pool_rejected_or_passed_over_witness :
  applyCapiIPAddress (depsOf [eth2NoPool]) theDriver eth2NoPool "m1" (emptySim None)
  = (Err (ErrNew "ipamRef of an ipamConfig is not set"), emptySim None,
     [EvGet KClaim (ipAddrClaimKey theDriver eth2NoPool "m1") (Some ErrNotFound)]).
Proof.
  apply (proj1 (missing_pool_rejected_or_passed_over (depsOf [eth2NoPool]) theDriver
                  eth2NoPool "m1" eq_refl)); reflexivity.
Defined.

(** The claim [m1-eth2] does not exist and the reference has no pool:
    [applyIPAddresses] succeeds with no metadata and without a single call
    to the control plane. *)
Lemma missing_pool_is_passed_over :
  sim_claims (emptySim None) !! ("metal", ipAddrClaimName "m1" "eth2") = None
  /\ IPAMRef eth2NoPool = None
  /\ applyIPAddresses (depsOf [eth2NoPool]) theDriver "m1" (specOf [eth2NoPool])
       (emptySim None)
     = (Ok [], emptySim None, [EvLock; EvUnlock]).
Proof. vm_compute. repeat split; reflexivity. Qed.

(** ** What the allocator issues *)

Section AllocatorEvents.
Context {W : Type} {C : ClientInterface W} (deps : Collaborators).
Implicit Types (w : W) (d : metalDriver) (networkRef : IPAMConfig).

Lemma issuesOnly_weaken {A} (P Q : Event -> bool) (m : M W A) :
  (forall ev, P ev = true -> Q ev = true) -> issuesOnly P m -> issuesOnly Q m.
Proof.
  intros HPQ Hm w. eapply Forall_impl; [apply Hm | exact HPQ].
Qed.

Lemma Get_claim_issues key : issuesOnly isGetOrCreate (Get_claim key).
Proof.
  intros w. unfold Get_claim, trace. destruct (cl_GetClaim key w).
  repeat constructor.
Qed.

Lemma Create_claim_issues c : issuesOnly isGetOrCreate (Create_claim c).
Proof.
  intros w. unfold Create_claim, trace. destruct (cl_CreateClaim c w).
  repeat constructor.
Qed.

Lemma isGet_isGetOrCreate ev : isGet ev = true -> isGetOrCreate ev = true.
Proof. unfold isGetOrCreate. now intros ->. Qed.

Lemma isGetOrCreate_notPatch ev : isGetOrCreate ev = true -> notPatch ev = true.
Proof. now destruct ev. Qed.

(** The allocator of one reference only reads, and creates claims. *)
Lemma applyCapi_issues d networkRef machineName :
  issuesOnly isGetOrCreate (applyCapiIPAddress deps d networkRef machineName).
Proof.
  unfold applyCapiIPAddress.
  apply issuesOnly_bind; [apply Get_claim_issues|]. intros [c|e].
  - destruct (nonEmpty (claim_AddressRefName c)); [|apply issuesOnly_fail].
    eapply issuesOnly_weaken;
      [apply isGet_isGetOrCreate | apply resolveAddress_reads].
  - destruct (negb (IsNotFound e)); [apply issuesOnly_fail|].
    destruct (IPAMRef networkRef) as [ref|]; [|apply issuesOnly_fail].
    apply issuesOnly_bind; [apply Create_claim_issues|]. intros [c|e'].
    + eapply issuesOnly_weaken; [apply isGet_isGetOrCreate|].
      apply (waitAndResolve_reads deps).
    + apply issuesOnly_fail.
Qed.

Lemma applyNetworkRefs_issues d machineName refs : forall acc,
  issuesOnly isGetOrCreate (applyNetworkRefs deps d machineName refs acc).
Proof.
  induction refs as [|networkRef rest IH]; intros acc; simpl.
  - apply issuesOnly_ret.
  - destruct (isCapiRef networkRef); [|apply IH].
    apply issuesOnly_bind; [apply applyCapi_issues | intros; apply IH].
Qed.

(** [applyIPAddresses] patches nothing. *)
Lemma applyIPAddresses_no_patch d machineName providerSpec :
  issuesOnly notPatch (applyIPAddresses deps d machineName providerSpec).
Proof.
  apply issuesOnly_withLock; try reflexivity.
  eapply issuesOnly_weaken;
    [apply isGetOrCreate_notPatch | apply applyNetworkRefs_issues].
Qed.

End AllocatorEvents.

Lemma nonEmpty_true (s : string) : s <> "" -> nonEmpty s = true.
Proof.
  intros Hne. unfold nonEmpty. apply negb_true_iff, String.eqb_neq. exact Hne.
Qed.

Lemma trace_triple {W A} (r : result A) (w : W) (t : list Event) :
  trace (r, w, t) = t.
Proof. reflexivity. Qed.

Lemma outcome_triple {W A} (r : result A) (w : W) (t : list Event) :
  outcome (r, w, t) = r.
Proof. reflexivity. Qed.

Lemma isGet_not_create (ev : Event) : isGet ev = true -> isCreate ev = false.
Proof. now destruct ev. Qed.

(** C5, as the code has it.  For a network reference that names a pool and
    whose claim the lookup does not find, [applyCapiIPAddress] issues exactly
    one create, that of the claim, right after the lookup, and only reads
    after it.  When the lookup finds the claim bound it issues no create:
    the claim lookup and the address lookup only.  The loop of
    [applyIPAddresses] calls it once for each reference of the cluster-API
    IPAM group, and passes over every other reference without any call. *)
Theorem one_create_per_dispatched_reference {W : Type} {C : ClientInterface W}
    (deps : Collaborators) (d : metalDriver) (networkRef : IPAMConfig)
    (machineName : string) (w : W) :
  (forall e w1 ref,
     cl_GetClaim (ipAddrClaimKey d networkRef machineName) w = (Err e, w1) ->
     IsNotFound e = true ->
     IPAMRef networkRef = Some ref ->
     countWhere isCreate (trace (applyCapiIPAddress deps d networkRef machineName w)) = 1
     /\ exists err reads,
          trace (applyCapiIPAddress deps d networkRef machineName w)
          = EvGet KClaim (ipAddrClaimKey d networkRef machineName) (Some e)
            :: EvCreate
                 (OClaim (newClaim (ipAddrClaimKey d networkRef machineName) ref)) err
            :: reads
          /\ Forall (fun ev => isGet ev = true) reads)
  /\ (forall c w1,
        cl_GetClaim (ipAddrClaimKey d networkRef machineName) w = (Ok c, w1) ->
        claim_AddressRefName c <> "" ->
        countWhere isCreate (trace (applyCapiIPAddress deps d networkRef machineName w)) = 0
        /\ Forall (fun ev => isGet ev = true)
             (trace (applyCapiIPAddress deps d networkRef machineName w))
        /\ length (trace (applyCapiIPAddress deps d networkRef machineName w)) = 2)
  /\ (forall rest acc,
        applyNetworkRefs deps d machineName (networkRef :: rest) acc w
        = if isCapiRef networkRef
          then bind (applyCapiIPAddress deps d networkRef machineName)
                 (fun addressMetaData =>
                    applyNetworkRefs deps d machineName rest (acc ++ [addressMetaData])) w
          else applyNetworkRefs deps d machineName rest acc w).
Proof.
  split; [|split].
  - intros e w1 ref Hget Hnf Href.
    destruct (cl_CreateClaim (newClaim (ipAddrClaimKey d networkRef machineName) ref) w1)
      as [[c|e'] w2] eqn:Hcreate.
    + rewrite (applyCapi_created deps d networkRef machineName w e w1 ref c w2
                 Hget Hnf Href Hcreate).
      pose proof (waitAndResolve_reads deps d networkRef machineName c w2) as Hreads.
      rewrite !trace_triple. split.
      * match goal with |- countWhere _ (?a :: ?b :: ?t) = _ =>
          change (a :: b :: t) with ([a; b] ++ t) end.
        rewrite countWhere_app.
        rewrite (countWhere_none isCreate isGet _ isGet_not_create Hreads).
        reflexivity.
      * eexists _, _. split; [reflexivity | exact Hreads].
    + rewrite (applyCapi_create_error deps d networkRef machineName w e w1 ref e' w2
                 Hget Hnf Href Hcreate).
      split; [reflexivity|]. eexists _, _. split; [reflexivity | constructor].
  - intros c w1 Hget Hbound. apply nonEmpty_true in Hbound.
    rewrite (applyCapi_found_bound deps d networkRef machineName w c w1 Hget Hbound).
    rewrite !trace_triple, resolveAddress_trace.
    split; [reflexivity | split; [repeat constructor | reflexivity]].
  - intros rest acc. simpl. destruct (isCapiRef networkRef); reflexivity.
Qed.

(** A first call creates the claim once; a call that finds it bound creates
    nothing. *)
Lemma one_create_per_dispatched_reference_witness :
  countWhere isCreate
    (trace (applyCapiIPAddress (depsOf [eth0]) theDriver eth0 "m1" (emptySim (Some 2))))
  = 1
  /\ countWhere isCreate
       (trace (applyCapiIPAddress (depsOf [eth0]) theDriver eth0 "m1"
                 (simWithClaim "m1-eth0" None)))
     = 0.
Proof.
  pose proof (one_create_per_dispatched_reference (depsOf [eth0]) theDriver eth0 "m1"
                (emptySim (Some 2))) as (Hfresh & _ & _).
  pose proof (one_create_per_dispatched_reference (depsOf [eth0]) theDriver eth0 "m1"
                (simWithClaim "m1-eth0" None)) as (_ & Hbound & _).
  split.
  - refine (proj1 (Hfresh ErrNotFound _ poolA _ _ _)); reflexivity.
  - refine (proj1 (Hbound (claimOf "m1" eth0 poolA "m1-eth0") _ _ _));
      [vm_compute; reflexivity | discriminate].
Defined.

(** The reference [eth1] names a pool of another IPAM group and its claim
    [m1-eth1] does not exist: the machine is created and no claim is. *)
Lemma foreign_reference_creates_no_claim :
  sim_claims (emptySim (Some 0)) !! ("metal", ipAddrClaimName "m1" "eth1") = None
  /\ outcome (CreateMachine (depsOf [eth1Foreign]) theDriver (requestFor "m1")
                (emptySim (Some 0)))
     = Ok {| ProviderID := "ironcore-metal://metal/m1"; NodeName := "m1" |}
  /\ countWhere isCreate
       (trace (CreateMachine (depsOf [eth1Foreign]) theDriver (requestFor "m1")
                 (emptySim (Some 0))))
     = 0
  /\ sim_claims (world (CreateMachine (depsOf [eth1Foreign]) theDriver (requestFor "m1")
                          (emptySim (Some 0))))
     = ∅.
Proof. vm_compute. repeat split; reflexivity. Qed.

(** ** Sequencing *)

Section Sequencing.
Context {W : Type}.

Lemma bind_ret_l {A B} (a : A) (f : A -> M W B) w : bind (ret a) f w = f a w.
Proof. unfold bind, ret. now destruct (f a w) as [[r w1] t]. Qed.

Lemma bind_assoc {A B D} (m : M W A) (f : A -> M W B) (g : B -> M W D) w :
  bind (bind m f) g w = bind m (fun a => bind (f a) g) w.
Proof.
  unfold bind. destruct (m w) as [[[a|e] w1] t1]; [|reflexivity].
  destruct (f a w1) as [[[b|e] w2] t2]; [|reflexivity].
  destruct (g b w2) as [[r w3] t3]. now rewrite app_assoc.
Qed.

Lemma bind_ext {A B} (m : M W A) (f g : A -> M W B) w :
  (forall a w', f a w' = g a w') -> bind m f w = bind m g w.
Proof.
  intros Hfg. unfold bind. destruct (m w) as [[[a|e] w1] t1]; [|reflexivity].
  now rewrite Hfg.
Qed.

Lemma bind_outcome_err {A B} (m : M W A) (f : A -> M W B) w e :
  outcome (m w) = Err e -> bind m f w = (Err e, world (m w), trace (m w)).
Proof.
  unfold outcome, world, trace, bind.
  destruct (m w) as [[[a|e'] w1] t1]; simpl; intros H; [discriminate|].
  now injection H as ->.
Qed.

Lemma bind_outcome_ok {A B} (m : M W A) (f : A -> M W B) w a :
  outcome (m w) = Ok a ->
  bind m f w
  = (outcome (f a (world (m w))), world (f a (world (m w))),
     trace (m w) ++ trace (f a (world (m w)))).
Proof.
  unfold outcome, world, trace, bind.
  destruct (m w) as [[[a'|e'] w1] t1]; simpl; intros H; [|discriminate].
  injection H as ->. now destruct (f a w1) as [[r w2] t2].
Qed.

Lemma withLock_outcome {A} (m : M W A) w : outcome (withLock m w) = outcome (m w).
Proof. unfold withLock, outcome. now destruct (m w) as [[r w1] t]. Qed.

Lemma withLock_trace {A} (m : M W A) w :
  trace (withLock m w) = EvLock :: trace (m w) ++ [EvUnlock].
Proof. unfold withLock, trace. now destruct (m w) as [[r w1] t]. Qed.

End Sequencing.

Section CreateMachineFacts.
Context {W : Type} {C : ClientInterface W} (deps : Collaborators).
Implicit Types (w : W) (d : metalDriver) (networkRef : IPAMConfig).

(** The loop takes the references one after the other. *)
Lemma applyNetworkRefs_app d machineName pre rest : forall acc w,
  applyNetworkRefs deps d machineName (pre ++ rest) acc w
  = bind (applyNetworkRefs deps d machineName pre acc)
      (fun acc' => applyNetworkRefs deps d machineName rest acc') w.
Proof.
  induction pre as [|networkRef pre IH]; intros acc w.
  - simpl. now rewrite bind_ret_l.
  - simpl. destruct (isCapiRef networkRef); [|apply IH].
    rewrite bind_assoc. apply bind_ext. intros a w'. apply IH.
Qed.

(** The first failure of a reference ends the loop with that error. *)
Lemma applyNetworkRefs_fails_at d machineName pre networkRef post w mds w1 t1 e :
  applyNetworkRefs deps d machineName pre [] w = (Ok mds, w1, t1) ->
  isCapiRef networkRef = true ->
  outcome (applyCapiIPAddress deps d networkRef machineName w1) = Err e ->
  outcome (applyNetworkRefs deps d machineName (pre ++ networkRef :: post) [] w)
  = Err e.
Proof.
  intros Hpre Hcapi Hfail.
  rewrite applyNetworkRefs_app, (bind_ok _ _ _ _ _ _ Hpre), outcome_triple.
  rewrite applyNetworkRefs_dispatch by exact Hcapi.
  now rewrite (bind_outcome_err _ _ _ _ Hfail).
Qed.

(** When the allocation fails, so does [CreateMachine], with the same
    error and no further call. *)
Lemma CreateMachine_allocation_fails d class machine secret providerSpec w e :
  mc_Provider class = ProviderName ->
  validateProviderSpecAndSecret deps (Some class) secret = Ok providerSpec ->
  outcome (applyIPAddresses deps d (m_Name machine) providerSpec w) = Err e ->
  CreateMachine deps d
    (Some {| req_MachineClass := Some class; req_Machine := Some machine;
             req_Secret := Some secret |}) w
  = (Err e, world (applyIPAddresses deps d (m_Name machine) providerSpec w),
     trace (applyIPAddresses deps d (m_Name machine) providerSpec w)).
Proof.
  intros Hprov Hvalid Hfail. unfold CreateMachine.
  rewrite Hprov, String.eqb_refl. simpl negb. cbv iota.
  rewrite Hvalid. now apply bind_outcome_err.
Qed.

End CreateMachineFacts.

Lemma isCapiRef_capi (networkRef : IPAMConfig) (ref : IPAMObjectReference) :
  IPAMRef networkRef = Some ref -> ref_APIGroup ref = capiGroup ->
  isCapiRef networkRef = true.
Proof.
  intros Href Hgroup. unfold isCapiRef. rewrite Href, Hgroup.
  apply String.eqb_refl.
Qed.

(** When the allocation of a reference fails, [CreateMachine] returns that
    error and patches nothing. *)
Lemma failed_reference_stops_creation {W : Type} {C : ClientInterface W}
    (deps : Collaborators) (d : metalDriver)
    (class : MachineClass) (machine : Machine) (secret : Secret)
    (providerSpec : ProviderSpec) (pre post : list IPAMConfig)
    (networkRef : IPAMConfig) (w w1 : W) (mds : list (gmap string value))
    (t1 : list Event) (err : error) :
  mc_Provider class = ProviderName ->
  validateProviderSpecAndSecret deps (Some class) secret = Ok providerSpec ->
  ps_IPAMConfig providerSpec = pre ++ networkRef :: post ->
  applyNetworkRefs deps d (m_Name machine) pre [] w = (Ok mds, w1, t1) ->
  isCapiRef networkRef = true ->
  outcome (applyCapiIPAddress deps d networkRef (m_Name machine) w1) = Err err ->
  outcome (CreateMachine deps d
             (Some {| req_MachineClass := Some class; req_Machine := Some machine;
                      req_Secret := Some secret |}) w)
  = Err err
  /\ Forall (fun ev => isPatch ev = false)
       (trace (CreateMachine deps d
                 (Some {| req_MachineClass := Some class; req_Machine := Some machine;
                          req_Secret := Some secret |}) w)).
Proof.
  intros Hprov Hvalid Hrefs Hpre Hcapi Hone.
  assert (Hall : outcome (applyIPAddresses deps d (m_Name machine) providerSpec w)
                 = Err err).
  { unfold applyIPAddresses. rewrite withLock_outcome, Hrefs.
    eapply applyNetworkRefs_fails_at; eassumption. }
  rewrite (CreateMachine_allocation_fails deps d class machine secret providerSpec w _
             Hprov Hvalid Hall).
  rewrite outcome_triple, trace_triple. split; [reflexivity|].
  eapply Forall_impl; [apply applyIPAddresses_no_patch|].
  intros ev Hev. now apply negb_true_iff in Hev.
Qed.

(** C6, as the code has it.  A reference of the request reaches the
    allocator.  If its claim is not found and is created unbound, and no
    lookup of the wait (one at once and one per tick before the deadline)
    shows it bound, the allocation of that reference fails with the deadline
    error.  If its claim is found unbound, the allocation fails with "IP
    address claim isn't ready" instead, without any wait.  In both cases
    [CreateMachine] returns that error and its trace holds no patch: neither
    the server claim nor the ignition secret is applied. *)
Theorem unbound_claim_stops_creation {W : Type} {C : ClientInterface W}
    (deps : Collaborators) (d : metalDriver)
    (class : MachineClass) (machine : Machine) (secret : Secret)
    (providerSpec : ProviderSpec) (pre post : list IPAMConfig)
    (networkRef : IPAMConfig) (ref : IPAMObjectReference)
    (w w1 : W) (mds : list (gmap string value)) (t1 : list Event) :
  mc_Provider class = ProviderName ->
  validateProviderSpecAndSecret deps (Some class) secret = Ok providerSpec ->
  ps_IPAMConfig providerSpec = pre ++ networkRef :: post ->
  applyNetworkRefs deps d (m_Name machine) pre [] w = (Ok mds, w1, t1) ->
  IPAMRef networkRef = Some ref ->
  ref_APIGroup ref = capiGroup ->
  let key := ipAddrClaimKey d networkRef (m_Name machine) in
  let call := CreateMachine deps d
                (Some {| req_MachineClass := Some class; req_Machine := Some machine;
                         req_Secret := Some secret |}) w in
  (forall e w2 c w3,
     cl_GetClaim key w1 = (Err e, w2) ->
     IsNotFound e = true ->
     cl_CreateClaim (newClaim key ref) w2 = (Ok c, w3) ->
     claim_AddressRefName c = "" ->
     forallb unboundAnswer
       (lookups (S (timerTicks deps pollInterval pollTimeout)) key w3) = true ->
     outcome (applyCapiIPAddress deps d networkRef (m_Name machine) w1)
     = Err ErrDeadlineExceeded
     /\ outcome call = Err ErrDeadlineExceeded
     /\ Forall (fun ev => isPatch ev = false) (trace call))
  /\ (forall c w2,
        cl_GetClaim key w1 = (Ok c, w2) ->
        claim_AddressRefName c = "" ->
        outcome (applyCapiIPAddress deps d networkRef (m_Name machine) w1)
        = Err (ErrNew "IP address claim isn't ready")
        /\ outcome call = Err (ErrNew "IP address claim isn't ready")
        /\ Forall (fun ev => isPatch ev = false) (trace call)).
Proof.
  intros Hprov Hvalid Hrefs Hpre Href Hgroup key call.
  pose proof (isCapiRef_capi networkRef ref Href Hgroup) as Hcapi.
  split.
  - intros e w2 c w3 Hget Hnf Hcreate Hunbound Hnever.
    assert (Hone : outcome (applyCapiIPAddress deps d networkRef (m_Name machine) w1)
                   = Err ErrDeadlineExceeded).
    { rewrite (applyCapi_created deps d networkRef (m_Name machine) w1 e w2 ref c w3
                 Hget Hnf Href Hcreate), outcome_triple.
      unfold waitAndResolve.
      destruct (poll_timeout (timerTicks deps pollInterval pollTimeout) key c w3
                  (nonEmpty_empty _ Hunbound) Hnever) as [Hpoll _].
      now rewrite (bind_outcome_err _ _ _ _ Hpoll). }
    split; [exact Hone|].
    eapply failed_reference_stops_creation; eassumption.
  - intros c w2 Hget Hunbound.
    assert (Hone : outcome (applyCapiIPAddress deps d networkRef (m_Name machine) w1)
                   = Err (ErrNew "IP address claim isn't ready")).
    { now rewrite (applyCapi_found_unbound deps d networkRef (m_Name machine) w1 c w2
                     Hget (nonEmpty_empty _ Hunbound)). }
    split; [exact Hone|].
    eapply failed_reference_stops_creation; eassumption.
Qed.

(** An empty control plane without allocator: the claim is created and never
    bound. *)
Lemma unbound_claim_stops_creation_witness :
  outcome (CreateMachine (depsOf [eth0]) theDriver (requestFor "m1") (emptySim None))
  = Err ErrDeadlineExceeded
  /\ Forall (fun ev => isPatch ev = false)
       (trace (CreateMachine (depsOf [eth0]) theDriver (requestFor "m1")
                 (emptySim None))).
Proof.
  refine (proj2 (proj1 (unbound_claim_stops_creation (depsOf [eth0]) theDriver
                          {| mc_Provider := ProviderName; mc_ProviderSpecRaw := "{}" |}
                          {| m_Name := "m1" |} _ (specOf [eth0]) [] [] eth0 poolA
                          (emptySim None) (emptySim None) [] []
                          _ _ _ _ _ _)
                   ErrNotFound (emptySim None) (claimOf "m1" eth0 poolA "") _
                   _ _ _ _ _));
    reflexivity.
Defined.

(** The claim [m1-eth0] exists before the call and is never bound: no
    lookup within the deadline shows it bound, and the call fails at once,
    with an error that is not the deadline error. *)
Lemma existing_unbound_claim_gets_no_timeout :
  forallb unboundAnswer
    (lookups (S (pollTimeout / pollInterval)) (ipAddrClaimKey theDriver eth0 "m1")
       (simWithClaim "" None))
  = true
  /\ outcome (CreateMachine (depsOf [eth0]) theDriver (requestFor "m1")
                (simWithClaim "" None))
     = Err (ErrNew "IP address claim isn't ready")
  /\ filter (fun ev => isGet ev = true)
       (trace (CreateMachine (depsOf [eth0]) theDriver (requestFor "m1")
                 (simWithClaim "" None)))
     = [EvGet KClaim {| Namespace := "metal"; Name := "m1-eth0" |} None].
Proof. vm_compute. repeat split; reflexivity. Qed.

(** ** The writes of a call *)

Lemma Disciplined_app (t1 t2 : list Event) :
  Disciplined t1 -> Disciplined t2 -> Disciplined (t1 ++ t2).
Proof.
  intros H1 H2. induction H1; simpl.
  - exact H2.
  - now apply Disciplined_other.
  - now apply Disciplined_apply.
  - now apply Disciplined_create.
Qed.

Lemma Disciplined_reads (t : list Event) :
  Forall (fun ev => isGet ev = true) t -> Disciplined t.
Proof.
  induction 1 as [|ev t Hev _ IH]; [constructor|].
  apply Disciplined_other; [now destruct ev | exact IH].
Qed.

Lemma precedes_filter (a b P : Event -> bool) (tr : list Event) :
  (forall ev, a ev = true -> P ev = true) ->
  (forall ev, b ev = true -> P ev = true) ->
  precedes a b (filter (fun ev => P ev = true) tr) = precedes a b tr.
Proof.
  intros Ha Hb.
  assert (Hex : forall t, existsb b (filter (fun ev => P ev = true) t) = existsb b t).
  { induction t as [|ev t IH]; [reflexivity|].
    rewrite filter_cons. destruct (decide (P ev = true)) as [Hp|Hp]; simpl.
    - now rewrite IH.
    - rewrite IH. destruct (b ev) eqn:Hbev; [|reflexivity].
      now rewrite (Hb ev Hbev) in Hp. }
  induction tr as [|ev tr IH]; [reflexivity|].
  rewrite filter_cons. destruct (decide (P ev = true)) as [Hp|Hp]; simpl.
  - now rewrite IH, Hex.
  - rewrite IH. destruct (a ev) eqn:Haev; [|reflexivity].
    now rewrite (Ha ev Haev) in Hp.
Qed.

Section Writes.
Context {W : Type} {C : ClientInterface W} (deps : Collaborators).
Implicit Types (w : W) (d : metalDriver) (networkRef : IPAMConfig).

Lemma Disciplined_bind {A B} (m : M W A) (f : A -> M W B) :
  (forall w, Disciplined (trace (m w))) ->
  (forall a w, Disciplined (trace (f a w))) ->
  forall w, Disciplined (trace (bind m f w)).
Proof.
  intros Hm Hf w. specialize (Hm w).
  destruct (outcome (m w)) as [a|e] eqn:Hout.
  - rewrite (bind_outcome_ok _ _ _ _ Hout), trace_triple.
    apply Disciplined_app; [exact Hm | apply Hf].
  - rewrite (bind_outcome_err _ _ _ _ Hout), trace_triple. exact Hm.
Qed.

Lemma applyCapi_disciplined d networkRef machineName w :
  Disciplined (trace (applyCapiIPAddress deps d networkRef machineName w)).
Proof.
  destruct (cl_GetClaim (ipAddrClaimKey d networkRef machineName) w)
    as [[c|e] w1] eqn:Hget.
  - destruct (nonEmpty (claim_AddressRefName c)) eqn:Hbound.
    + rewrite (applyCapi_found_bound deps _ _ _ _ _ _ Hget Hbound), trace_triple.
      apply Disciplined_other; [reflexivity|].
      apply Disciplined_reads, resolveAddress_reads.
    + rewrite (applyCapi_found_unbound deps _ _ _ _ _ _ Hget Hbound), trace_triple.
      repeat constructor.
  - destruct (IsNotFound e) eqn:Hnf.
    + destruct (IPAMRef networkRef) as [ref|] eqn:Href.
      * destruct (cl_CreateClaim
                    (newClaim (ipAddrClaimKey d networkRef machineName) ref) w1)
          as [[c|e'] w2] eqn:Hcreate.
        -- rewrite (applyCapi_created deps _ _ _ _ _ _ _ _ _ Hget Hnf Href Hcreate),
             trace_triple.
           apply Disciplined_create; [exact Hnf | reflexivity |].
           apply Disciplined_reads, (waitAndResolve_reads deps).
        -- rewrite (applyCapi_create_error deps _ _ _ _ _ _ _ _ _
                      Hget Hnf Href Hcreate), trace_triple.
           apply Disciplined_create; [exact Hnf | reflexivity | constructor].
      * rewrite (applyCapi_no_pool deps _ _ _ _ _ _ Hget Hnf Href), trace_triple.
        repeat constructor.
    + rewrite (applyCapi_lookup_error deps _ _ _ _ _ _ Hget Hnf), trace_triple.
      repeat constructor.
Qed.

Lemma applyNetworkRefs_disciplined d machineName refs : forall acc w,
  Disciplined (trace (applyNetworkRefs deps d machineName refs acc w)).
Proof.
  induction refs as [|networkRef rest IH]; intros acc w; simpl.
  - constructor.
  - destruct (isCapiRef networkRef); [|apply IH].
    apply Disciplined_bind; [apply applyCapi_disciplined | intros; apply IH].
Qed.

Lemma applyIPAddresses_disciplined d machineName providerSpec w :
  Disciplined (trace (applyIPAddresses deps d machineName providerSpec w)).
Proof.
  unfold applyIPAddresses. rewrite withLock_trace.
  apply Disciplined_other; [reflexivity|].
  apply Disciplined_app; [apply applyNetworkRefs_disciplined | repeat constructor].
Qed.

(** The events of [applyServerClaim], by what the two patches return. *)
Lemma applyServerClaim_trace d machineName providerSpec ignitionSecret w :
  let serverClaim := newServerClaim d machineName providerSpec ignitionSecret in
  let owner := fieldOwner deps in
  match outcome (applyServerClaim deps d machineName providerSpec ignitionSecret w) with
  | Ok _ =>
      trace (applyServerClaim deps d machineName providerSpec ignitionSecret w)
      = [EvLock;
         EvPatch (OServerClaim serverClaim) ApplyPatch owner true None;
         EvPatch (OSecret ignitionSecret) ApplyPatch owner true None;
         EvUnlock]
  | Err _ =>
      exists err,
        trace (applyServerClaim deps d machineName providerSpec ignitionSecret w)
        = [EvLock;
           EvPatch (OServerClaim serverClaim) ApplyPatch owner true (Some err);
           EvUnlock]
        \/ trace (applyServerClaim deps d machineName providerSpec ignitionSecret w)
           = [EvLock;
              EvPatch (OServerClaim serverClaim) ApplyPatch owner true None;
              EvPatch (OSecret ignitionSecret) ApplyPatch owner true (Some err);
              EvUnlock]
  end.
Proof.
  intros serverClaim owner.
  unfold applyServerClaim, withLock, bind, Apply_serverClaim, Apply_secret,
    outcome, trace.
  fold serverClaim. fold owner.
  destruct (cl_PatchServerClaim serverClaim w) as [[sc|e] w1]; simpl.
  - destruct (cl_PatchSecret ignitionSecret w1) as [[s|e] w2]; simpl.
    + reflexivity.
    + exists e. now right.
  - exists e. now left.
Qed.

Lemma applyServerClaim_disciplined d machineName providerSpec ignitionSecret w :
  Disciplined (trace (applyServerClaim deps d machineName providerSpec ignitionSecret w)).
Proof.
  pose proof (applyServerClaim_trace d machineName providerSpec ignitionSecret w) as H.
  cbv zeta in H.
  destruct (outcome (applyServerClaim deps d machineName providerSpec ignitionSecret w)).
  - rewrite H. apply Disciplined_other; [reflexivity|].
    do 2 (apply Disciplined_apply; [reflexivity|]). repeat constructor.
  - destruct H as [err [-> | ->]]; apply Disciplined_other; try reflexivity.
    + apply Disciplined_apply; [reflexivity|]. repeat constructor.
    + do 2 (apply Disciplined_apply; [reflexivity|]). repeat constructor.
Qed.

Lemma CreateMachine_disciplined d req w :
  Disciplined (trace (CreateMachine deps d req w)).
Proof.
  unfold CreateMachine.
  destruct req as [[[class|] [machine|] [secret|]]|]; try constructor.
  destruct (negb (String.eqb (mc_Provider class) ProviderName)); [constructor|].
  destruct (validateProviderSpecAndSecret deps (Some class) secret)
    as [providerSpec|e]; [|constructor].
  apply Disciplined_bind; [apply applyIPAddresses_disciplined|].
  intros addressMetaData w1.
  destruct (applyIgnition deps d (m_Name machine) secret providerSpec addressMetaData)
    as [ignitionSecret|e]; [|constructor].
  apply Disciplined_bind; [apply applyServerClaim_disciplined|].
  intros serverClaim w2. constructor.
Qed.

End Writes.

Lemma Disciplined_patches (t : list Event) :
  Disciplined t ->
  Forall (fun ev => isPatch ev = true -> isForcedApply ev = true) t.
Proof.
  induction 1 as [|ev tr Hev _ IH|ev tr Hev _ IH|key e c err tr _ _ _ IH].
  - constructor.
  - constructor; [|exact IH]. intros Hp.
    unfold isWrite in Hev. rewrite Hp, orb_true_r in Hev. discriminate.
  - constructor; [|exact IH]. now intros _.
  - repeat (constructor; [discriminate|]). exact IH.
Qed.

(** C4, as the code has it.  In every call of [CreateMachine] each patch is
    a server-side apply with forced ownership (the server claim and the
    ignition secret are written so), and the only other write is the plain
    create of an address claim, issued right after a lookup of that very
    claim answered not found. *)
Theorem writes_are_applies_or_guarded_creates {W : Type} {C : ClientInterface W}
    (deps : Collaborators) (d : metalDriver) (req : option CreateMachineRequest)
    (w : W) :
  Disciplined (trace (CreateMachine deps d req w))
  /\ Forall (fun ev => isPatch ev = true -> isForcedApply ev = true)
       (trace (CreateMachine deps d req w)).
Proof.
  split; [|apply Disciplined_patches]; apply CreateMachine_disciplined.
Qed.

(** A first call for [m1] with the reference [eth0] succeeds and one of its
    writes is a plain create, not an apply. *)
Lemma claim_is_written_by_plain_create :
  outcome (CreateMachine (depsOf [eth0]) theDriver (requestFor "m1") (emptySim (Some 2)))
  = Ok {| ProviderID := "ironcore-metal://metal/m1"; NodeName := "m1" |}
  /\ filter (fun ev => isWrite ev && negb (isForcedApply ev) = true)
       (trace (CreateMachine (depsOf [eth0]) theDriver (requestFor "m1")
                 (emptySim (Some 2))))
     = [EvCreate (OClaim (claimOf "m1" eth0 poolA "")) None].
Proof. vm_compute. split; reflexivity. Qed.

Lemma isApplyOf_isPatch (k : Kind) (ev : Event) :
  isApplyOf k ev = true -> isPatch ev = true.
Proof. now destruct ev. Qed.

(** C1, as the code has it.  In every successful call of [CreateMachine] the
    patches are two, in this order: the apply of the server claim, then the
    apply of the ignition secret that the server claim names.  The write of
    the reservation comes before the write of the artifact. *)
Theorem server_claim_applied_before_secret {W : Type} {C : ClientInterface W}
    (deps : Collaborators) (d : metalDriver) (req : option CreateMachineRequest)
    (w : W) (resp : CreateMachineResponse) :
  outcome (CreateMachine deps d req w) = Ok resp ->
  exists serverClaim ignitionSecret,
    filter (fun ev => isPatch ev = true) (trace (CreateMachine deps d req w))
    = [EvPatch (OServerClaim serverClaim) ApplyPatch (fieldOwner deps) true None;
       EvPatch (OSecret ignitionSecret) ApplyPatch (fieldOwner deps) true None]
    /\ sc_IgnitionSecretRef serverClaim = sec_Name ignitionSecret
    /\ precedes (isApplyOf KServerClaim) (isApplyOf KSecret)
         (trace (CreateMachine deps d req w)) = true
    /\ precedes (isApplyOf KSecret) (isApplyOf KServerClaim)
         (trace (CreateMachine deps d req w)) = false.
Proof.
  intros Hok.
  assert (Hpatches : exists serverClaim ignitionSecret,
    filter (fun ev => isPatch ev = true) (trace (CreateMachine deps d req w))
    = [EvPatch (OServerClaim serverClaim) ApplyPatch (fieldOwner deps) true None;
       EvPatch (OSecret ignitionSecret) ApplyPatch (fieldOwner deps) true None]
    /\ sc_IgnitionSecretRef serverClaim = sec_Name ignitionSecret).
  { unfold CreateMachine in *.
    destruct req as [[[class|] [machine|] [secret|]]|]; try discriminate.
    cbn [isEmptyCreateRequest isNil req_MachineClass req_Machine req_Secret orb]
      in Hok |- *.
    destruct (negb (String.eqb (mc_Provider class) ProviderName)); [discriminate|].
    destruct (validateProviderSpecAndSecret deps (Some class) secret)
      as [providerSpec|e]; [|discriminate].
    pose proof (applyIPAddresses_no_patch deps d (m_Name machine) providerSpec w)
      as Halloc.
    destruct (outcome (applyIPAddresses deps d (m_Name machine) providerSpec w))
      as [addressMetaData|e] eqn:Hout;
      [| rewrite (bind_outcome_err _ _ _ _ Hout) in Hok; discriminate].
    rewrite (bind_outcome_ok _ _ _ _ Hout) in Hok |- *.
    rewrite outcome_triple in Hok. rewrite trace_triple.
    destruct (applyIgnition deps d (m_Name machine) secret providerSpec addressMetaData)
      as [ignitionSecret|e]; [|discriminate].
    pose proof (applyServerClaim_trace deps d (m_Name machine) providerSpec
                  ignitionSecret
                  (world (applyIPAddresses deps d (m_Name machine) providerSpec w)))
      as Hsc.
    cbv zeta in Hsc.
    destruct (outcome (applyServerClaim deps d (m_Name machine) providerSpec
                         ignitionSecret
                         (world (applyIPAddresses deps d (m_Name machine)
                                   providerSpec w))))
      as [serverClaim|e] eqn:Hout2;
      [| rewrite (bind_outcome_err _ _ _ _ Hout2) in Hok; discriminate].
    rewrite (bind_outcome_ok _ _ _ _ Hout2), trace_triple, Hsc.
    rewrite filter_app.
    rewrite (filter_none isPatch notPatch _
               (fun ev H => proj1 (negb_true_iff _) H) Halloc).
    eexists _, _. split; reflexivity. }
  destruct Hpatches as (serverClaim & ignitionSecret & Hfilter & Hname).
  exists serverClaim, ignitionSecret. split; [exact Hfilter | split; [exact Hname|]].
  rewrite <- !(precedes_filter _ _ isPatch (trace (CreateMachine deps d req w))
                 (isApplyOf_isPatch _) (isApplyOf_isPatch _)).
  rewrite Hfilter. split; reflexivity.
Qed.

(** A call that succeeds: the allocator binds the claim at the second lookup
    of the wait. *)
Lemma server_claim_applied_before_secret_witness :
  exists serverClaim ignitionSecret,
    filter (fun ev => isPatch ev = true)
      (trace (CreateMachine (depsOf [eth0]) theDriver (requestFor "m1")
                (emptySim (Some 2))))
    = [EvPatch (OServerClaim serverClaim) ApplyPatch "mcm.ironcore.dev/field-owner"
         true None;
       EvPatch (OSecret ignitionSecret) ApplyPatch "mcm.ironcore.dev/field-owner"
         true None]
    /\ sc_IgnitionSecretRef serverClaim = sec_Name ignitionSecret.
Proof.
  destruct (server_claim_applied_before_secret (depsOf [eth0]) theDriver
              (requestFor "m1") (emptySim (Some 2))
              {| ProviderID := "ironcore-metal://metal/m1"; NodeName := "m1" |})
    as (serverClaim & ignitionSecret & Hfilter & Hname & _).
  - vm_compute. reflexivity.
  - exists serverClaim, ignitionSecret. split; assumption.
Defined.

(** A successful call for [m1]: the server claim is applied first and names
    the secret [m1-ignition], which is applied after it; no apply of the
    secret comes before the apply of the server claim. *)
Lemma secret_is_not_applied_first :
  outcome (CreateMachine (depsOf [eth0]) theDriver (requestFor "m1") (emptySim (Some 2)))
  = Ok {| ProviderID := "ironcore-metal://metal/m1"; NodeName := "m1" |}
  /\ precedes (isApplyOf KSecret) (isApplyOf KServerClaim)
       (trace (CreateMachine (depsOf [eth0]) theDriver (requestFor "m1")
                 (emptySim (Some 2))))
     = false
  /\ map (fun ev => match ev with
                    | EvPatch o _ _ _ _ => Some (kindOf o)
                    | _ => None
                    end)
       (filter (fun ev => isPatch ev = true)
          (trace (CreateMachine (depsOf [eth0]) theDriver (requestFor "m1")
                    (emptySim (Some 2)))))
     = [Some KServerClaim; Some KSecret].
Proof. vm_compute. repeat split; reflexivity. Qed.

(** ** The client provider *)

Section ProviderFacts.
Context {Kubeconfig RestConfig Handle : Type}.
Context (clientcmd_Load : string -> result Kubeconfig)
        (ClientConfig : Kubeconfig -> result RestConfig)
        (client_New : RestConfig -> result Handle).

(** [setMetalClient] changes the provider only when it succeeds. *)
Lemma setMetalClient_error (p : Provider) (clientConfig : Kubeconfig) :
  (setMetalClient ClientConfig client_New p clientConfig).1 <> None ->
  (setMetalClient ClientConfig client_New p clientConfig).2 = p.
Proof.
  unfold setMetalClient.
  destruct (ClientConfig clientConfig) as [restConfig|e]; [|reflexivity].
  destruct (client_New restConfig) as [newClient|e]; [|reflexivity].
  intros Hne. now destruct Hne.
Qed.

Lemma setMetalClient_ok (p : Provider) (clientConfig : Kubeconfig) :
  (setMetalClient ClientConfig client_New p clientConfig).1 = None ->
  exists newClient,
    Client (setMetalClient ClientConfig client_New p clientConfig).2 = Some newClient.
Proof.
  unfold setMetalClient.
  destruct (ClientConfig clientConfig) as [restConfig|e]; [|discriminate].
  destruct (client_New restConfig) as [newClient|e]; [|discriminate].
  intros _. now exists newClient.
Qed.

Lemma handleEvent_other_file (fs : FileSystem) (p : Provider) (name : string) :
  name <> kubeconfigPath p ->
  (handleEvent clientcmd_Load ClientConfig client_New fs p name).1 = p.
Proof.
  intros Hne. unfold handleEvent.
  apply String.eqb_neq in Hne. now rewrite Hne.
Qed.

End ProviderFacts.

(** C9.  The watcher sees a change of the kubeconfig file, and reading the
    configuration again or building the new client fails: the provider is
    left exactly as it was, with the client it had.  [setMetalClient] itself
    changes nothing when it returns an error. *)
Theorem failed_reload_keeps_client {Kubeconfig RestConfig Handle : Type}
    (clientcmd_Load : string -> result Kubeconfig)
    (ClientConfig : Kubeconfig -> result RestConfig)
    (client_New : RestConfig -> result Handle)
    (fs : FileSystem) (p : Provider) :
  reloadFails clientcmd_Load ClientConfig client_New fs p ->
  (handleEvent clientcmd_Load ClientConfig client_New fs p (kubeconfigPath p)).1 = p
  /\ Client (handleEvent clientcmd_Load ClientConfig client_New fs p
               (kubeconfigPath p)).1
     = Client p.
Proof.
  intros Hfails.
  assert (Hsame : (handleEvent clientcmd_Load ClientConfig client_New fs p
                     (kubeconfigPath p)).1 = p).
  { unfold handleEvent, reloadFails in *. rewrite String.eqb_refl. simpl.
    destruct (getClientConfig clientcmd_Load fs p) as [clientConfig|e];
      [|reflexivity].
    pose proof (setMetalClient_error ClientConfig client_New p clientConfig Hfails)
      as Hkeep.
    destruct (setMetalClient ClientConfig client_New p clientConfig) as [[e|] p'];
      simpl in *; [exact Hkeep | now destruct Hfails]. }
  split; [exact Hsame | now rewrite Hsame].
Qed.

(** The kubeconfig is replaced by one that names no server. *)
Lemma failed_reload_keeps_client_witness :
  (handleEvent exampleLoad exampleClientConfig exampleNew brokenFiles exampleProvider
     examplePath).1
  = exampleProvider.
Proof.
  refine (proj1 (failed_reload_keeps_client exampleLoad exampleClientConfig exampleNew
                   brokenFiles exampleProvider _)).
  vm_compute. discriminate.
Defined.

(** ** Requests and the watcher, interleaved *)

Section Interleaving.
Context {Kubeconfig RestConfig Handle : Type}.
Context (clientcmd_Load : string -> result Kubeconfig)
        (ClientConfig : Kubeconfig -> result RestConfig)
        (client_New : RestConfig -> result Handle).

Abbreviation Shared := (@Shared RestConfig Handle).

Lemma lookup_setRequest (s : Shared) (i j : nat) (pc : RequestPc) :
  default ROutside (setRequest s i pc !! j)
  = if decide (i = j) then pc else requestPc s j.
Proof.
  unfold setRequest, requestPc. rewrite lookup_insert.
  now destruct (decide (i = j)).
Qed.

(** A request inside its critical section holds the mutex. *)
Lemma inside_holds_mutex (s : Shared) (i : nat) :
  consistent s -> requestPc s i <> ROutside ->
  mu s = Some (TRequest i)
  /\ isFull (cell s) = true
  /\ (watcher s = WIdle \/ exists r, watcher s = WWantLock r)
  /\ (forall j, j <> i -> requestPc s j = ROutside)
  /\ (requestPc s i = RLocked \/ requestPc s i = RUsing (cell s)).
Proof.
  intros [_ Hmu] Hin. destruct (mu s) as [[|k]|].
  - destruct Hmu as [Hout _]. now destruct Hin.
  - destruct Hmu as (Hfull & Hw & Hothers & Hi).
    destruct (decide (i = k)) as [->|Hne]; [now repeat split|].
    now destruct Hin; apply Hothers.
  - destruct Hmu as (_ & _ & Hout). now destruct Hin.
Qed.

Lemma stepRequest_consistent (i : nat) (leave : bool) (s : Shared) :
  consistent s -> consistent (stepRequest i leave s).
Proof.
  intros Hs. unfold stepRequest.
  destruct (requestPc s i) as [| |metalClient] eqn:Hpc.
  - destruct (mu s) as [t|] eqn:Hmu; [exact Hs|].
    destruct Hs as [Hseen Hinv]. rewrite Hmu in Hinv.
    destruct Hinv as (Hfull & Hw & Hout).
    split; [exact Hseen|]. simpl. repeat split; try assumption.
    + intros j Hne. unfold requestPc. simpl. rewrite lookup_setRequest.
      destruct (decide (i = j)); [congruence | apply Hout].
    + left. unfold requestPc. simpl. rewrite lookup_setRequest.
      now destruct (decide (i = i)).
  - destruct (inside_holds_mutex s i Hs) as (Hmu & Hfull & Hw & Hothers & _);
      [congruence|].
    destruct Hs as [Hseen _].
    split; simpl.
    + apply Forall_app. split; [exact Hseen | now constructor].
    + rewrite Hmu. repeat split; try assumption.
      * intros j Hne. unfold requestPc. simpl. rewrite lookup_setRequest.
        destruct (decide (i = j)); [congruence | now apply Hothers].
      * right. unfold requestPc. simpl. rewrite lookup_setRequest.
        now destruct (decide (i = i)).
  - destruct (inside_holds_mutex s i Hs) as (Hmu & Hfull & Hw & Hothers & Hi);
      [congruence|].
    destruct Hs as [Hseen _].
    assert (Hclient : metalClient = cell s).
    { destruct Hi as [Hi|Hi]; rewrite Hpc in Hi; congruence. }
    destruct leave; split; simpl; try exact Hseen.
    + repeat split; try assumption.
      intros j. unfold requestPc. simpl. rewrite lookup_setRequest.
      destruct (decide (i = j)); [reflexivity | now apply Hothers].
    + apply Forall_app. split; [exact Hseen|]. subst metalClient.
      now constructor.
    + rewrite Hmu. repeat split; assumption.
Qed.

Lemma stepWatcher_consistent (path name : string) (fs : FileSystem) (s : Shared) :
  consistent s ->
  consistent (stepWatcher clientcmd_Load ClientConfig client_New path name fs s).
Proof.
  intros Hs. unfold stepWatcher.
  destruct (watcher s) as [|r|r|c|c|] eqn:Hw.
  - destruct (negb (String.eqb name path)); [exact Hs|].
    destruct (getClientConfig clientcmd_Load fs _) as [clientConfig|e]; [|exact Hs].
    destruct (ClientConfig clientConfig) as [restConfig|e]; [|exact Hs].
    destruct Hs as [Hseen Hinv]. split; [exact Hseen|].
    unfold requestPc, setWatcher in *. simpl.
    destruct (mu s) as [[|k]|].
    + rewrite Hw in Hinv. now destruct Hinv.
    + destruct Hinv as (Hfull & _ & Hrest). repeat split; eauto; apply Hrest.
    + destruct Hinv as (Hfull & _ & Hrest). repeat split; eauto.
  - destruct (mu s) as [t|] eqn:Hmu; [exact Hs|].
    destruct Hs as [Hseen Hinv]. rewrite Hmu in Hinv.
    destruct Hinv as (Hfull & _ & Hout).
    split; [exact Hseen|]. unfold requestPc, setWatcher in *. simpl.
    split; assumption.
  - destruct Hs as [Hseen Hinv]. unfold requestPc in Hinv.
    destruct (mu s) as [[|k]|] eqn:Hmu.
    + rewrite Hw in Hinv. destruct Hinv as [Hout Hfull].
      destruct (client_New r) as [newClient|e]; split; try exact Hseen;
        unfold requestPc, setWatcher; simpl.
      * split; assumption.
      * repeat split; eauto.
    + destruct Hinv as (_ & [Hidle|[r' Hwant]] & _); congruence.
    + destruct Hinv as (_ & [Hidle|[r' Hwant]] & _); congruence.
  - destruct Hs as [Hseen Hinv]. split; [exact Hseen|].
    unfold requestPc, setWatcher in *. simpl.
    destruct (mu s) as [[|k]|] eqn:Hmu.
    + rewrite Hw in Hinv. destruct Hinv as [Hout _]. split; [exact Hout | reflexivity].
    + destruct Hinv as (_ & [Hidle|[r' Hwant]] & _); congruence.
    + destruct Hinv as (_ & [Hidle|[r' Hwant]] & _); congruence.
  - destruct Hs as [Hseen Hinv]. split; [exact Hseen|].
    unfold requestPc, setWatcher in *. simpl.
    destruct (mu s) as [[|k]|] eqn:Hmu.
    + rewrite Hw in Hinv. destruct Hinv as [Hout _]. split; [exact Hout | reflexivity].
    + destruct Hinv as (_ & [Hidle|[r' Hwant]] & _); congruence.
    + destruct Hinv as (_ & [Hidle|[r' Hwant]] & _); congruence.
  - destruct Hs as [Hseen Hinv]. split; [exact Hseen|].
    unfold requestPc, setWatcher in *. simpl.
    destruct (mu s) as [[|k]|] eqn:Hmu.
    + rewrite Hw in Hinv. destruct Hinv as [Hout Hfull]. repeat split; eauto.
    + destruct Hinv as (_ & [Hidle|[r' Hwant]] & _); congruence.
    + destruct Hinv as (_ & [Hidle|[r' Hwant]] & _); congruence.
Qed.

Lemma run_consistent (path : string) (schedule : list Action) : forall s : Shared,
  consistent s ->
  consistent (run clientcmd_Load ClientConfig client_New path schedule s).
Proof.
  unfold run. induction schedule as [|a schedule IH]; intros s Hs; [exact Hs|].
  simpl. apply IH. destruct a as [i leave|name fs]; simpl.
  - now apply stepRequest_consistent.
  - now apply stepWatcher_consistent.
Qed.

Lemma initial_consistent (c0 : Handle) : consistent (@initial RestConfig Handle c0).
Proof.
  split; [constructor|]. simpl. repeat split; eauto.
Qed.

End Interleaving.

(** The provider that [NewProviderAndNamespace] returns holds a client. *)
Lemma NewProviderAndNamespace_has_client {Kubeconfig RestConfig Handle : Type}
    (clientcmd_Load : string -> result Kubeconfig)
    (ClientConfig : Kubeconfig -> result RestConfig)
    (ConfigNamespace : Kubeconfig -> result string)
    (client_New : RestConfig -> result Handle)
    (watcherAdd : option error) (fs : FileSystem) (path : string)
    (p : Provider) (namespace : string) :
  NewProviderAndNamespace clientcmd_Load ClientConfig ConfigNamespace client_New
    watcherAdd fs path = Ok (p, namespace) ->
  exists c0, Client p = Some c0.
Proof.
  unfold NewProviderAndNamespace.
  destruct watcherAdd as [e|]; [discriminate|].
  destruct (getClientConfig clientcmd_Load fs _) as [clientConfig|e]; [|discriminate].
  pose proof (setMetalClient_ok ClientConfig client_New
                {| Client := None; kubeconfigPath := path |} clientConfig) as Hset.
  destruct (setMetalClient ClientConfig client_New _ clientConfig) as [[e|] cp'];
    [discriminate|].
  destruct (getNamespace ConfigNamespace clientConfig) as [ns|e]; [|discriminate].
  intros Heq. injection Heq as <- _. now apply Hset.
Qed.

(** C10.  Requests and rotations of the kubeconfig interleave in any order,
    every step of [setMetalClient] and of a request's critical section taken
    separately, the store of the client in two halves.  Whatever the
    schedule: every handle that a request reads or uses is a fully built
    client, never nil and never half stored; a request inside its critical
    section holds the mutex alone, and the field holds that one full client
    all the while; the field is half stored only while the watcher holds
    the mutex. *)
Theorem requests_see_one_full_client {Kubeconfig RestConfig Handle : Type}
    (clientcmd_Load : string -> result Kubeconfig)
    (ClientConfig : Kubeconfig -> result RestConfig)
    (client_New : RestConfig -> result Handle)
    (path : string) (c0 : Handle) (schedule : list Action) :
  let s := run clientcmd_Load ClientConfig client_New path schedule (initial c0) in
  Forall (fun c => isFull c = true) (seen s)
  /\ (forall i, requestPc s i <> ROutside ->
        mu s = Some (TRequest i)
        /\ isFull (cell s) = true
        /\ (forall j, j <> i -> requestPc s j = ROutside)
        /\ (forall metalClient, requestPc s i = RUsing metalClient ->
              metalClient = cell s))
  /\ (isFull (cell s) = false -> mu s = Some TWatcher).
Proof.
  intros s.
  assert (Hs : consistent s)
    by apply run_consistent, initial_consistent.
  split; [apply Hs | split].
  - intros i Hin.
    destruct (inside_holds_mutex s i Hs Hin) as (Hmu & Hfull & _ & Hothers & Hi).
    repeat split; try assumption.
    intros metalClient Hpc. destruct Hi as [Hi|Hi]; congruence.
  - intros Htorn. destruct Hs as [_ Hinv].
    destruct (mu s) as [[|k]|]; [reflexivity| |];
      destruct Hinv as (Hfull & _); congruence.
Qed.

(** A rotation between two requests: the first request sees the first
    client, the watcher has to wait for the mutex, and the second request,
    held back while the client is stored, sees the new client. *)
Example rotation_between_requests :
  seen (run exampleLoad exampleClientConfig exampleNew examplePath
          [ActRequest 0 false;                       (* request 0 locks *)
           ActWatcher examplePath {[ examplePath := "server: https://10.0.0.2" ]};
           ActWatcher examplePath ∅;                 (* the mutex is taken *)
           ActRequest 0 false;                       (* request 0 reads the client *)
           ActRequest 0 true;                        (* and unlocks *)
           ActWatcher examplePath ∅;                 (* the watcher locks *)
           ActWatcher examplePath ∅;                 (* builds the client *)
           ActWatcher examplePath ∅;                 (* stores the first half *)
           ActRequest 1 false;                       (* request 1 cannot lock *)
           ActWatcher examplePath ∅;                 (* stores the second half *)
           ActWatcher examplePath ∅;                 (* unlocks *)
           ActRequest 1 false;                       (* request 1 locks *)
           ActRequest 1 false]                       (* and reads the client *)
          (initial "client of server: https://10.0.0.1"))
  = [CellFull "client of server: https://10.0.0.1";
     CellFull "client of server: https://10.0.0.2"].
Proof. vm_compute. reflexivity. Qed.

(** * Further properties *)

(** ** Requests that are turned down *)

(** A request that lacks the machine, the class or the secret, or that names
    another provider, is answered with InvalidArgument; one whose provider
    spec or secret does not validate is answered with the validation error.
    In each case nothing has been asked of the control plane and the mutex
    has not been touched. *)
Theorem rejected_request_makes_no_call {W : Type} {C : ClientInterface W}
    (deps : Collaborators) (d : metalDriver) (req : option CreateMachineRequest)
    (w : W) :
  (isEmptyCreateRequest req = true ->
     CreateMachine deps d req w
     = (Err (ErrStatus InvalidArgument "received empty request"), w, []))
  /\ (forall class machine secret,
        req = Some {| req_MachineClass := Some class; req_Machine := Some machine;
                      req_Secret := Some secret |} ->
        (mc_Provider class <> ProviderName ->
           exists msg,
             CreateMachine deps d req w = (Err (ErrStatus InvalidArgument msg), w, []))
        /\ (forall e,
              mc_Provider class = ProviderName ->
              validateProviderSpecAndSecret deps (Some class) secret = Err e ->
              CreateMachine deps d req w = (Err e, w, []))).
Proof.
  split.
  - intros Hempty. unfold CreateMachine. now rewrite Hempty.
  - intros class machine secret ->. split.
    + intros Hother. apply String.eqb_neq in Hother.
      unfold CreateMachine.
      cbn [isEmptyCreateRequest isNil req_MachineClass req_Machine req_Secret orb].
      rewrite Hother. now eexists.
    + intros e Hprov Hinvalid. unfold CreateMachine.
      cbn [isEmptyCreateRequest isNil req_MachineClass req_Machine req_Secret orb].
      rewrite Hprov, String.eqb_refl. cbn [negb]. now rewrite Hinvalid.
Qed.

(** A request that comes without its secret. *)
Lemma rejected_request_makes_no_call_witness :
  exists msg,
    CreateMachine (depsOf [eth0]) theDriver
      (Some {| req_MachineClass :=
                 Some {| mc_Provider := "aws"; mc_ProviderSpecRaw := "{}" |};
               req_Machine := Some {| m_Name := "m1" |};
               req_Secret := None |}) (emptySim None)
    = (Err (ErrStatus InvalidArgument msg), emptySim None, []).
Proof.
  exists "received empty request".
  apply (proj1 (rejected_request_makes_no_call (depsOf [eth0]) theDriver _
                  (emptySim None))).
  reflexivity.
Defined.

(** [validateProviderSpecAndSecret] accepts exactly the classes whose raw
    provider spec decodes and validates without a finding, and returns the
    decoded spec; every error it returns carries the code Internal. *)
Theorem validation_accepts_clean_specs (deps : Collaborators)
    (class : option MachineClass) (secret : Secret) :
  (forall providerSpec,
     validateProviderSpecAndSecret deps class secret = Ok providerSpec
     <-> exists c,
           class = Some c
           /\ unmarshalProviderSpec deps (mc_ProviderSpecRaw c) = Ok providerSpec
           /\ ValidateProviderSpecAndSecret deps providerSpec secret = [])
  /\ (forall e,
        validateProviderSpecAndSecret deps class secret = Err e ->
        exists msg, e = ErrStatus Internal msg).
Proof.
  unfold validateProviderSpecAndSecret. split.
  - intros providerSpec. split.
    + destruct class as [c|]; [|discriminate].
      destruct (unmarshalProviderSpec deps (mc_ProviderSpecRaw c)) as [spec|e]
        eqn:Hdecode; [|discriminate].
      destruct (ValidateProviderSpecAndSecret deps spec secret) eqn:Hfindings;
        [|discriminate].
      intros Heq. injection Heq as <-. now exists c.
    + intros (c & -> & Hdecode & Hclean). now rewrite Hdecode, Hclean.
  - intros e. destruct class as [c|]; [|intros [= <-]; now eexists].
    destruct (unmarshalProviderSpec deps (mc_ProviderSpecRaw c)) as [spec|e'];
      [|intros [= <-]; now eexists].
    destruct (ValidateProviderSpecAndSecret deps spec secret);
      [discriminate | intros [= <-]; now eexists].
Qed.

(** ** The mutex *)

Lemma lockedAfter_app (held : bool) (t1 t2 : list Event) :
  lockedAfter held (t1 ++ t2)
  = match lockedAfter held t1 with
    | Some held' => lockedAfter held' t2
    | None => None
    end.
Proof.
  revert held. induction t1 as [|ev t1 IH]; intros held; [reflexivity|].
  destruct ev, held; simpl; try reflexivity; apply IH.
Qed.

Lemma lockedAfter_calls (t : list Event) :
  Forall (fun ev => isCall ev = true) t -> lockedAfter true t = Some true.
Proof.
  induction 1 as [|ev t Hev _ IH]; [reflexivity|].
  destruct ev; try discriminate; exact IH.
Qed.

Lemma wellLocked_app (t1 t2 : list Event) :
  wellLocked t1 = true -> wellLocked t2 = true -> wellLocked (t1 ++ t2) = true.
Proof.
  unfold wellLocked. rewrite lockedAfter_app.
  destruct (lockedAfter false t1) as [[|]|]; try discriminate. now intros _.
Qed.

Lemma wellLocked_section (t : list Event) :
  Forall (fun ev => isCall ev = true) t ->
  wellLocked (EvLock :: t ++ [EvUnlock]) = true.
Proof.
  intros Hcalls. unfold wellLocked. simpl.
  now rewrite lockedAfter_app, (lockedAfter_calls t Hcalls).
Qed.

Lemma wellLocked_bind {W A B} (m : M W A) (f : A -> M W B) :
  (forall w, wellLocked (trace (m w)) = true) ->
  (forall a w, wellLocked (trace (f a w)) = true) ->
  forall w, wellLocked (trace (bind m f w)) = true.
Proof.
  intros Hm Hf w. specialize (Hm w).
  destruct (outcome (m w)) as [a|e] eqn:Hout.
  - rewrite (bind_outcome_ok _ _ _ _ Hout), trace_triple.
    apply wellLocked_app; [exact Hm | apply Hf].
  - now rewrite (bind_outcome_err _ _ _ _ Hout), trace_triple.
Qed.

Lemma isGetOrCreate_isCall (ev : Event) : isGetOrCreate ev = true -> isCall ev = true.
Proof. now destruct ev. Qed.

Lemma applyIPAddresses_wellLocked {W : Type} {C : ClientInterface W}
    (deps : Collaborators) (d : metalDriver) (machineName : string)
    (providerSpec : ProviderSpec) (w : W) :
  wellLocked (trace (applyIPAddresses deps d machineName providerSpec w)) = true.
Proof.
  unfold applyIPAddresses. rewrite withLock_trace. apply wellLocked_section.
  eapply Forall_impl; [apply applyNetworkRefs_issues|].
  apply isGetOrCreate_isCall.
Qed.

Lemma applyServerClaim_wellLocked {W : Type} {C : ClientInterface W}
    (deps : Collaborators) (d : metalDriver) (machineName : string)
    (providerSpec : ProviderSpec) (ignitionSecret : Secret) (w : W) :
  wellLocked
    (trace (applyServerClaim deps d machineName providerSpec ignitionSecret w)) = true.
Proof.
  pose proof (applyServerClaim_trace deps d machineName providerSpec ignitionSecret w)
    as H.
  cbv zeta in H.
  destruct (outcome (applyServerClaim deps d machineName providerSpec ignitionSecret w)).
  - now rewrite H.
  - now destruct H as [err [-> | ->]].
Qed.

(** Whatever the request and whatever the control plane answers,
    [CreateMachine] takes the provider mutex before each of its calls to the
    control plane, never takes it twice, and has released it when it
    returns, with or without an error. *)
Theorem calls_are_made_under_the_mutex {W : Type} {C : ClientInterface W}
    (deps : Collaborators) (d : metalDriver) (req : option CreateMachineRequest)
    (w : W) :
  wellLocked (trace (CreateMachine deps d req w)) = true.
Proof.
  unfold CreateMachine.
  destruct (isEmptyCreateRequest req); [reflexivity|].
  destruct req as [[[class|] [machine|] [secret|]]|]; try reflexivity.
  destruct (negb (String.eqb (mc_Provider class) ProviderName)); [reflexivity|].
  destruct (validateProviderSpecAndSecret deps (Some class) secret)
    as [providerSpec|e]; [|reflexivity].
  apply wellLocked_bind; [apply applyIPAddresses_wellLocked|].
  intros addressMetaData w1.
  destruct (applyIgnition deps d (m_Name machine) secret providerSpec addressMetaData)
    as [ignitionSecret|e]; [|reflexivity].
  apply wellLocked_bind; [apply applyServerClaim_wellLocked | reflexivity].
Qed.

(** ** The allocator, path by path *)

Lemma resolveAddress_eq {W : Type} {C : ClientInterface W}
    (networkRef : IPAMConfig) (c : IPAddressClaim) (w : W) :
  resolveAddress networkRef c w
  = match cl_GetAddress {| Namespace := claim_Namespace c;
                           Name := claim_AddressRefName c |} w with
    | (Ok ipAddr, w1) =>
        (Ok (addressFragment networkRef ipAddr), w1,
         [EvGet KAddress {| Namespace := claim_Namespace c;
                            Name := claim_AddressRefName c |} None])
    | (Err e, w1) =>
        (Err e, w1,
         [EvGet KAddress {| Namespace := claim_Namespace c;
                            Name := claim_AddressRefName c |} (Some e)])
    end.
Proof.
  unfold resolveAddress, bind, Get_address.
  now destruct (cl_GetAddress _ w) as [[a|e] w1].
Qed.

Lemma claimReady_eq {W : Type} {C : ClientInterface W}
    (key : ObjectKey) (c : IPAddressClaim) (w : W) :
  claimReady key c w
  = match cl_GetClaim key w with
    | (Ok c', w1) =>
        (Ok (nonEmpty (claim_AddressRefName c'), c'), w1, [EvGet KClaim key None])
    | (Err e, w1) =>
        if IsNotFound e
        then (Ok (nonEmpty (claim_AddressRefName c), c), w1,
              [EvGet KClaim key (Some e)])
        else (Err e, w1, [EvGet KClaim key (Some e)])
    end.
Proof.
  unfold claimReady, bind, Get_claim.
  destruct (cl_GetClaim key w) as [[c'|e] w1]; [reflexivity|].
  simpl. now destruct (IsNotFound e).
Qed.

(** What a wait returns, and at what cost: a claim that carries an address,
    or the deadline error after one lookup per attempt, or the error of its
    last lookup when that is not a not-found. *)
Lemma pollLoop_spec {W : Type} {C : ClientInterface W} (key : ObjectKey)
    (ticks : nat) : forall (c : IPAddressClaim) (w : W),
  1 <= length (trace (pollLoop ticks (claimReady key) c w)) <= S ticks
  /\ Forall (fun ev => isGet ev = true) (trace (pollLoop ticks (claimReady key) c w))
  /\ match outcome (pollLoop ticks (claimReady key) c w) with
     | Ok c' => nonEmpty (claim_AddressRefName c') = true
     | Err e =>
         (e = ErrDeadlineExceeded
          /\ length (trace (pollLoop ticks (claimReady key) c w)) = S ticks)
         \/ (IsNotFound e = false
             /\ last (trace (pollLoop ticks (claimReady key) c w))
                = Some (EvGet KClaim key (Some e)))
     end.
Proof.
  induction ticks as [|n IH]; intros c w; rewrite poll_unfold;
    pose proof (claimReady_eq key c w) as Hcond;
    destruct (cl_GetClaim key w) as [[c'|e] w1].
  - rewrite (bind_ok _ _ _ _ _ _ Hcond). simpl.
    destruct (nonEmpty (claim_AddressRefName c')) eqn:Hb; simpl;
      (split; [lia | split; [repeat constructor|]]); [exact Hb | now left].
  - destruct (IsNotFound e) eqn:Hnf.
    + rewrite (bind_ok _ _ _ _ _ _ Hcond). simpl.
      destruct (nonEmpty (claim_AddressRefName c)) eqn:Hb; simpl;
        (split; [lia | split; [repeat constructor|]]); [exact Hb | now left].
    + rewrite (bind_err _ _ _ _ _ _ Hcond). simpl.
      split; [lia | split; [repeat constructor|]]. right. now split.
  - rewrite (bind_ok _ _ _ _ _ _ Hcond). simpl.
    destruct (nonEmpty (claim_AddressRefName c')) eqn:Hb; simpl.
    + split; [lia | split; [repeat constructor | exact Hb]].
    + destruct (IH c' w1) as ((Hlo & Hhi) & Hreads & Hout).
      unfold outcome, trace in *.
      destruct (pollLoop n (claimReady key) c' w1) as [[r w2] t]. simpl in *.
      split; [lia | split; [now constructor|]].
      destruct r as [c2|e]; [exact Hout|].
      destruct Hout as [[-> Hlen]|[Hnf Hlast]]; [left; split; [reflexivity | lia]|].
      right. split; [exact Hnf|].
      destruct t as [|ev t]; [simpl in Hlo; lia|].
      now rewrite last_cons_cons.
  - destruct (IsNotFound e) eqn:Hnf.
    + rewrite (bind_ok _ _ _ _ _ _ Hcond). simpl.
      destruct (nonEmpty (claim_AddressRefName c)) eqn:Hb; simpl.
      * split; [lia | split; [repeat constructor | exact Hb]].
      * destruct (IH c w1) as ((Hlo & Hhi) & Hreads & Hout).
        unfold outcome, trace in *.
        destruct (pollLoop n (claimReady key) c w1) as [[r w2] t]. simpl in *.
        split; [lia | split; [now constructor|]].
        destruct r as [c2|e']; [exact Hout|].
        destruct Hout as [[-> Hlen]|[Hnf' Hlast]];
          [left; split; [reflexivity | lia]|].
        right. split; [exact Hnf'|].
        destruct t as [|ev t]; [simpl in Hlo; lia|].
        now rewrite last_cons_cons.
    + rewrite (bind_err _ _ _ _ _ _ Hcond). simpl.
      split; [lia | split; [repeat constructor|]]. right. now split.
Qed.

(** The six ways through [applyCapiIPAddress]. *)
Lemma applyCapi_cases {W : Type} {C : ClientInterface W}
    (deps : Collaborators) (d : metalDriver) (networkRef : IPAMConfig)
    (machineName : string) (w : W) :
  let key := ipAddrClaimKey d networkRef machineName in
  let run := applyCapiIPAddress deps d networkRef machineName w in
  (exists c w1,
     nonEmpty (claim_AddressRefName c) = true
     /\ run = (outcome (resolveAddress networkRef c w1),
               world (resolveAddress networkRef c w1),
               EvGet KClaim key None :: trace (resolveAddress networkRef c w1)))
  \/ (exists w1,
        run = (Err (ErrNew "IP address claim isn't ready"), w1,
               [EvGet KClaim key None]))
  \/ (exists e w1,
        IsNotFound e = false /\ run = (Err e, w1, [EvGet KClaim key (Some e)]))
  \/ (exists e w1,
        IPAMRef networkRef = None
        /\ run = (Err (ErrNew "ipamRef of an ipamConfig is not set"), w1,
                  [EvGet KClaim key (Some e)]))
  \/ (exists e ref e' w2,
        IPAMRef networkRef = Some ref
        /\ run = (Err (ErrWrap "error creating IP" e'), w2,
                  [EvGet KClaim key (Some e);
                   EvCreate (OClaim (newClaim key ref)) (Some e')]))
  \/ (exists e ref c w2,
        IPAMRef networkRef = Some ref
        /\ run = (outcome (waitAndResolve deps d networkRef machineName c w2),
                  world (waitAndResolve deps d networkRef machineName c w2),
                  EvGet KClaim key (Some e)
                  :: EvCreate (OClaim (newClaim key ref)) None
                  :: trace (waitAndResolve deps d networkRef machineName c w2))).
Proof.
  intros key run. subst run key.
  destruct (cl_GetClaim (ipAddrClaimKey d networkRef machineName) w)
    as [[c|e] w1] eqn:Hget.
  - destruct (nonEmpty (claim_AddressRefName c)) eqn:Hbound.
    + left. exists c, w1. split; [exact Hbound|].
      exact (applyCapi_found_bound deps d networkRef machineName w c w1 Hget Hbound).
    + right; left. exists w1.
      exact (applyCapi_found_unbound deps d networkRef machineName w c w1 Hget Hbound).
  - destruct (IsNotFound e) eqn:Hnf.
    + destruct (IPAMRef networkRef) as [ref|] eqn:Href.
      * destruct (cl_CreateClaim
                    (newClaim (ipAddrClaimKey d networkRef machineName) ref) w1)
          as [[c|e'] w2] eqn:Hcreate.
        -- do 5 right. exists e, ref, c, w2. split; [reflexivity|].
           exact (applyCapi_created deps d networkRef machineName w e w1 ref c w2
                    Hget Hnf Href Hcreate).
        -- do 4 right; left. exists e, ref, e', w2. split; [reflexivity|].
           exact (applyCapi_create_error deps d networkRef machineName w e w1 ref e' w2
                    Hget Hnf Href Hcreate).
      * do 3 right; left. exists e, w1. split; [reflexivity|].
        exact (applyCapi_no_pool deps d networkRef machineName w e w1 Hget Hnf Href).
    + do 2 right; left. exists e, w1. split; [exact Hnf|].
      exact (applyCapi_lookup_error deps d networkRef machineName w e w1 Hget Hnf).
Qed.

(** The wait and the resolution after a create, in one: the events are
    reads, at most one per attempt and one for the address, and a success
    carries the address read under the name the bound claim gives. *)
Lemma waitAndResolve_spec {W : Type} {C : ClientInterface W}
    (deps : Collaborators) (d : metalDriver) (networkRef : IPAMConfig)
    (machineName : string) (c : IPAddressClaim) (w : W) :
  let run := waitAndResolve deps d networkRef machineName c w in
  length (trace run) <= S (S (timerTicks deps pollInterval pollTimeout))
  /\ match outcome run with
     | Ok md =>
         exists c' ipAddr,
           nonEmpty (claim_AddressRefName c') = true
           /\ md = addressFragment networkRef ipAddr
           /\ last (trace run)
              = Some (EvGet KAddress {| Namespace := claim_Namespace c';
                                        Name := claim_AddressRefName c' |} None)
     | Err e =>
         e = ErrDeadlineExceeded
         \/ exists ev, last (trace run) = Some ev /\ errorOf ev = Some e
     end.
Proof.
  intros run. subst run. unfold waitAndResolve.
  change (PollUntilContextTimeout deps pollInterval pollTimeout true)
    with (fun cond : IPAddressClaim -> M W (bool * IPAddressClaim) =>
            pollLoop (timerTicks deps pollInterval pollTimeout) cond).
  cbv beta.
  set (ticks := timerTicks deps pollInterval pollTimeout).
  set (key := ipAddrClaimKey d networkRef machineName).
  destruct (pollLoop_spec key ticks c w) as ((Hlo & Hhi) & _ & Hout).
  destruct (outcome (pollLoop ticks (claimReady key) c w)) as [c'|e] eqn:Hpoll.
  - rewrite (bind_outcome_ok _ _ _ _ Hpoll), trace_triple, outcome_triple.
    rewrite resolveAddress_eq.
    destruct (cl_GetAddress _ _) as [[ipAddr|e] w1];
      rewrite trace_triple, outcome_triple, length_app, last_snoc; simpl.
    + split; [lia|]. exists c', ipAddr.
      split; [exact Hout | split; reflexivity].
    + split; [lia|]. right. eexists. split; reflexivity.
  - rewrite (bind_outcome_err _ _ _ _ Hpoll), trace_triple, outcome_triple.
    split; [lia|].
    destruct Hout as [[-> _]|[_ Hlast]]; [now left|].
    right. eexists. split; [exact Hlast | reflexivity].
Qed.


Lemma last_after_one {A} (a ev : A) (t : list A) :
  last t = Some ev -> last (a :: t) = Some ev.
Proof.
  destruct t as [|x t]; [discriminate|]. intros Hlast.
  now rewrite last_cons_cons.
Qed.





(** ** The cost of an allocation *)

Lemma applyCapi_length {W : Type} {C : ClientInterface W}
    (deps : Collaborators) (d : metalDriver) (networkRef : IPAMConfig)
    (machineName : string) (w : W) :
  length (trace (applyCapiIPAddress deps d networkRef machineName w))
  <= timerTicks deps pollInterval pollTimeout + 4.
Proof.
  destruct (applyCapi_cases deps d networkRef machineName w)
    as [(c & w1 & Hbound & Hrun)
       |[(w1 & Hrun)
        |[(e0 & w1 & _ & Hrun)
         |[(e0 & w1 & _ & Hrun)
          |[(e0 & ref & e' & w2 & _ & Hrun)
           |(e0 & ref & c & w2 & _ & Hrun)]]]]];
    rewrite Hrun, trace_triple; simpl; try lia.
  - rewrite resolveAddress_trace. simpl. lia.
  - pose proof (waitAndResolve_spec deps d networkRef machineName c w2) as [Hlen _].
    cbv zeta in Hlen. lia.
Qed.

Lemma bind_trace_length {W A B} (m : M W A) (f : A -> M W B) (w : W) (n k : nat) :
  length (trace (m w)) <= n ->
  (forall a w', length (trace (f a w')) <= k) ->
  length (trace (bind m f w)) <= n + k.
Proof.
  intros Hm Hf. destruct (outcome (m w)) as [a|e] eqn:Hout.
  - rewrite (bind_outcome_ok _ _ _ _ Hout), trace_triple, length_app.
    specialize (Hf a (world (m w))). lia.
  - rewrite (bind_outcome_err _ _ _ _ Hout), trace_triple. lia.
Qed.

Lemma applyNetworkRefs_length {W : Type} {C : ClientInterface W}
    (deps : Collaborators) (d : metalDriver) (machineName : string)
    (refs : list IPAMConfig) : forall acc (w : W),
  length (trace (applyNetworkRefs deps d machineName refs acc w))
  <= length (filter (fun networkRef => isCapiRef networkRef = true) refs)
     * (timerTicks deps pollInterval pollTimeout + 4).
Proof.
  induction refs as [|networkRef rest IH]; intros acc w; [simpl; lia|].
  rewrite filter_cons. cbn [applyNetworkRefs].
  destruct (isCapiRef networkRef) eqn:Hcapi.
  - destruct (decide (true = true)) as [_|Hne]; [|now destruct Hne].
    cbn [length Nat.mul].
    apply bind_trace_length; [apply applyCapi_length | intros; apply IH].
  - destruct (decide (false = true)) as [Hne|_]; [discriminate | apply IH].
Qed.

(** [applyIPAddresses] makes a bounded number of calls: for each reference
    of the cluster-API group at most the lookup, the create, one lookup per
    attempt of the wait and the read of the address; with the lock and the
    unlock that is at most 2 + n * (ticks + 4) events for n such
    references, whatever the control plane answers. *)
Theorem allocation_calls_are_bounded {W : Type} {C : ClientInterface W}
    (deps : Collaborators) (d : metalDriver) (machineName : string)
    (providerSpec : ProviderSpec) (w : W) :
  length (trace (applyIPAddresses deps d machineName providerSpec w))
  <= 2 + length (filter (fun networkRef => isCapiRef networkRef = true)
                   (ps_IPAMConfig providerSpec))
         * (timerTicks deps pollInterval pollTimeout + 4).
Proof.
  unfold applyIPAddresses. rewrite withLock_trace. cbn [length].
  rewrite length_app. cbn [length].
  pose proof (applyNetworkRefs_length deps d machineName
                (ps_IPAMConfig providerSpec) [] w).
  lia.
Qed.

(** ** The wait that succeeds *)

(** The first [n] lookups of the wait show no bound claim and the next one
    shows the claim bound, with [n] no more than the ticks the timer
    delivers: the wait returns that claim after exactly [n + 1] lookups. *)
Theorem wait_ends_at_first_bound_answer {W : Type} {C : ClientInterface W}
    (key : ObjectKey) (n : nat) :
  forall (ticks : nat) (c cb : IPAddressClaim) (w : W),
    n <= ticks ->
    claim_AddressRefName c = "" ->
    forallb unboundAnswer (lookups n key w) = true ->
    last (lookups (S n) key w) = Some (Ok cb) ->
    claim_AddressRefName cb <> "" ->
    outcome (pollLoop ticks (claimReady key) c w) = Ok cb
    /\ length (trace (pollLoop ticks (claimReady key) c w)) = S n.
Proof.
  induction n as [|n IH]; intros ticks c cb w Hle Hc Hun Hlast Hbound.
  - cbn [lookups] in Hlast. destruct (cl_GetClaim key w) as [r w1] eqn:Hget.
    simpl in Hlast. injection Hlast as ->.
    rewrite (poll_bound_now ticks key c w cb w1 Hget (nonEmpty_true _ Hbound)).
    split; reflexivity.
  - destruct ticks as [|ticks]; [lia|].
    cbn [lookups] in Hun, Hlast.
    destruct (cl_GetClaim key w) as [r w1] eqn:Hget.
    cbn [forallb] in Hun. apply andb_true_iff in Hun as [Hhd Htl].
    destruct (poll_step (S ticks) key c w r w1 _ Hget Hhd (nonEmpty_empty _ Hc)
                eq_refl) as [Hc1 ->].
    rewrite outcome_triple, trace_triple.
    assert (Hlast' : last (lookups (S n) key w1) = Some (Ok cb)).
    { cbn [lookups] in Hlast |- *.
      destruct (cl_GetClaim key w1) as [r' w2].
      now rewrite last_cons_cons in Hlast. }
    assert (Hc1' : claim_AddressRefName (match r with Ok c' => c' | Err _ => c end)
                   = "").
    { unfold nonEmpty in Hc1. apply negb_false_iff, String.eqb_eq in Hc1.
      exact Hc1. }
    destruct (IH ticks _ cb w1 ltac:(lia) Hc1' Htl Hlast' Hbound) as [Hout Hlen].
    split; [exact Hout | simpl; now rewrite Hlen].
Qed.

(** The allocator binds the claim at the third lookup of the wait. *)
Lemma wait_ends_at_first_bound_answer_witness :
  outcome (pollLoop 6 (claimReady (ipAddrClaimKey theDriver eth0 "m1"))
             (claimOf "m1" eth0 poolA "") (simWithClaim "" (Some 2)))
  = Ok (claimOf "m1" eth0 poolA "m1-eth0")
  /\ length (trace (pollLoop 6 (claimReady (ipAddrClaimKey theDriver eth0 "m1"))
                      (claimOf "m1" eth0 poolA "") (simWithClaim "" (Some 2))))
     = 3.
Proof.
  apply (wait_ends_at_first_bound_answer (ipAddrClaimKey theDriver eth0 "m1") 2 6
           (claimOf "m1" eth0 poolA "") (claimOf "m1" eth0 poolA "m1-eth0")
           (simWithClaim "" (Some 2)));
    [lia | reflexivity | vm_compute; reflexivity | vm_compute; reflexivity
    | discriminate].
Defined.

(** ** The loop over the references *)

Lemma applyCapi_ok_fragment {W : Type} {C : ClientInterface W}
    (deps : Collaborators) (d : metalDriver) (networkRef : IPAMConfig)
    (machineName : string) (w : W) (md : gmap string value) :
  outcome (applyCapiIPAddress deps d networkRef machineName w) = Ok md ->
  exists ipAddr, md = addressFragment networkRef ipAddr.
Proof.
  intros Hok.
  destruct (applyCapi_cases deps d networkRef machineName w)
    as [(c & w1 & Hbound & Hrun)
       |[(w1 & Hrun)
        |[(e0 & w1 & _ & Hrun)
         |[(e0 & w1 & _ & Hrun)
          |[(e0 & ref & e' & w2 & _ & Hrun)
           |(e0 & ref & c & w2 & _ & Hrun)]]]]];
    rewrite Hrun, outcome_triple in Hok; try discriminate.
  - rewrite resolveAddress_eq in Hok.
    destruct (cl_GetAddress _ w1) as [[ipAddr|e] w2];
      rewrite outcome_triple in Hok; [|discriminate].
    injection Hok as <-. now exists ipAddr.
  - pose proof (waitAndResolve_spec deps d networkRef machineName c w2) as [_ Hout].
    cbv zeta in Hout. rewrite Hok in Hout.
    destruct Hout as (_ & ipAddr & _ & -> & _). now exists ipAddr.
Qed.

Lemma applyNetworkRefs_fragments {W : Type} {C : ClientInterface W}
    (deps : Collaborators) (d : metalDriver) (machineName : string)
    (refs : list IPAMConfig) : forall acc (w : W) result,
  outcome (applyNetworkRefs deps d machineName refs acc w) = Ok result ->
  exists mds,
    result = acc ++ mds
    /\ Forall2 (fun networkRef md => exists ipAddr, md = addressFragment networkRef ipAddr)
         (filter (fun networkRef => isCapiRef networkRef = true) refs) mds.
Proof.
  induction refs as [|networkRef rest IH]; intros acc w result Hok.
  - injection Hok as <-. exists []. split; [now rewrite app_nil_r | constructor].
  - rewrite filter_cons. cbn [applyNetworkRefs] in Hok.
    destruct (isCapiRef networkRef) eqn:Hcapi.
    + destruct (decide (true = true)) as [_|Hne]; [|now destruct Hne].
      destruct (outcome (applyCapiIPAddress deps d networkRef machineName w))
        as [md|e] eqn:Hone;
        [| rewrite (bind_outcome_err _ _ _ _ Hone), outcome_triple in Hok;
           discriminate].
      rewrite (bind_outcome_ok _ _ _ _ Hone), outcome_triple in Hok.
      destruct (IH _ _ _ Hok) as (mds & -> & Hrest).
      exists (md :: mds). split; [now rewrite <- app_assoc|].
      constructor; [|exact Hrest].
      exact (applyCapi_ok_fragment deps d networkRef machineName w md Hone).
    + destruct (decide (false = true)) as [Hne|_]; [discriminate|].
      now apply (IH acc w).
Qed.

(** When [applyIPAddresses] succeeds it returns one piece of metadata for
    each reference of the cluster-API group, in the order of the request,
    and nothing for the others; each piece is a map with the single key of
    its reference, holding the ip, the prefix and the gateway of an
    address. *)
Theorem allocation_returns_one_fragment_per_reference
    {W : Type} {C : ClientInterface W}
    (deps : Collaborators) (d : metalDriver) (machineName : string)
    (providerSpec : ProviderSpec) (w : W)
    (allAddressMetaData : list (gmap string value)) :
  outcome (applyIPAddresses deps d machineName providerSpec w)
  = Ok allAddressMetaData ->
  Forall2 (fun networkRef md => exists ipAddr, md = addressFragment networkRef ipAddr)
    (filter (fun networkRef => isCapiRef networkRef = true)
       (ps_IPAMConfig providerSpec))
    allAddressMetaData.
Proof.
  unfold applyIPAddresses. rewrite withLock_outcome. intros Hok.
  now destruct (applyNetworkRefs_fragments deps d machineName _ [] w _ Hok)
    as (mds & -> & Hall).
Qed.

(** Three references, the middle one of another group: two fragments come
    back, for the first and for the third. *)
Lemma allocation_returns_one_fragment_per_reference_witness :
  Forall2 (fun networkRef md => exists ipAddr, md = addressFragment networkRef ipAddr)
    [eth0; {| MetadataKey := "eth3"; IPAMRef := Some poolA |}]
    [addressFragment eth0 address5;
     addressFragment {| MetadataKey := "eth3"; IPAMRef := Some poolA |} address5].
Proof.
  apply (allocation_returns_one_fragment_per_reference
           (depsOf []) theDriver "m1"
           (specOf [eth0; eth1Foreign; {| MetadataKey := "eth3"; IPAMRef := Some poolA |}])
           (emptySim (Some 1))).
  vm_compute. reflexivity.
Defined.

(** A request without a reference of the cluster-API group, an empty list
    of references included: [applyIPAddresses] takes and releases the mutex,
    asks nothing of the control plane, and returns no metadata. *)
Theorem no_reference_no_call {W : Type} {C : ClientInterface W}
    (deps : Collaborators) (d : metalDriver) (machineName : string)
    (providerSpec : ProviderSpec) (w : W) :
  Forall (fun networkRef => isCapiRef networkRef = false)
    (ps_IPAMConfig providerSpec) ->
  applyIPAddresses deps d machineName providerSpec w = (Ok [], w, [EvLock; EvUnlock]).
Proof.
  intros Hnone. unfold applyIPAddresses, withLock.
  assert (Hloop : forall acc,
            applyNetworkRefs deps d machineName (ps_IPAMConfig providerSpec) acc w
            = (Ok acc, w, [])).
  { induction Hnone as [|networkRef rest Hskip _ IH]; intros acc; [reflexivity|].
    now rewrite applyNetworkRefs_skip. }
  now rewrite Hloop.
Qed.

Lemma no_reference_no_call_witness :
  applyIPAddresses (depsOf []) theDriver "m1" (specOf [eth1Foreign; eth2NoPool])
    (emptySim (Some 0))
  = (Ok [], emptySim (Some 0), [EvLock; EvUnlock]).
Proof.
  apply (no_reference_no_call (depsOf []) theDriver "m1"
           (specOf [eth1Foreign; eth2NoPool]) (emptySim (Some 0))).
  repeat constructor.
Defined.

(** The loop stops at the first reference whose allocation fails: the error
    is that of this reference, the calls are those made for the references
    before it and for it, and the references after it are not looked at,
    whatever they are. *)
Theorem allocation_stops_at_first_failure {W : Type} {C : ClientInterface W}
    (deps : Collaborators) (d : metalDriver) (machineName : string)
    (providerSpec : ProviderSpec) (pre post : list IPAMConfig)
    (networkRef : IPAMConfig) (w w1 : W) (mds : list (gmap string value))
    (t1 : list Event) (e : error) :
  ps_IPAMConfig providerSpec = pre ++ networkRef :: post ->
  applyNetworkRefs deps d machineName pre [] w = (Ok mds, w1, t1) ->
  isCapiRef networkRef = true ->
  outcome (applyCapiIPAddress deps d networkRef machineName w1) = Err e ->
  applyIPAddresses deps d machineName providerSpec w
  = (Err e, world (applyCapiIPAddress deps d networkRef machineName w1),
     EvLock :: (t1 ++ trace (applyCapiIPAddress deps d networkRef machineName w1))
            ++ [EvUnlock]).
Proof.
  intros Hrefs Hpre Hcapi Hfail. unfold applyIPAddresses, withLock.
  rewrite Hrefs, applyNetworkRefs_app, (bind_ok _ _ _ _ _ _ Hpre).
  rewrite applyNetworkRefs_dispatch by exact Hcapi.
  rewrite (bind_outcome_err _ _ _ _ Hfail). reflexivity.
Qed.

(** The claim of [eth0] exists unbound; [eth3] comes after it and is never
    looked up. *)
Lemma allocation_stops_at_first_failure_witness :
  applyIPAddresses (depsOf []) theDriver "m1"
    (specOf [eth1Foreign; eth0; {| MetadataKey := "eth3"; IPAMRef := Some poolA |}])
    (simWithClaim "" None)
  = (Err (ErrNew "IP address claim isn't ready"), simWithClaim "" None,
     [EvLock; EvGet KClaim {| Namespace := "metal"; Name := "m1-eth0" |} None;
      EvUnlock]).
Proof.
  etransitivity.
  - apply (allocation_stops_at_first_failure (depsOf []) theDriver "m1"
             (specOf [eth1Foreign; eth0;
                      {| MetadataKey := "eth3"; IPAMRef := Some poolA |}])
             [eth1Foreign] [{| MetadataKey := "eth3"; IPAMRef := Some poolA |}] eth0
             (simWithClaim "" None) (simWithClaim "" None) [] []
             (ErrNew "IP address claim isn't ready"));
      reflexivity.
  - vm_compute. reflexivity.
Defined.

(** ** The claims that are created *)

Lemma Forall_bind {W A B} (P : Event -> Prop) (m : M W A) (f : A -> M W B) :
  (forall w, Forall P (trace (m w))) ->
  (forall a w, Forall P (trace (f a w))) ->
  forall w, Forall P (trace (bind m f w)).
Proof.
  intros Hm Hf w. specialize (Hm w).
  destruct (outcome (m w)) as [a|e] eqn:Hout.
  - rewrite (bind_outcome_ok _ _ _ _ Hout), trace_triple.
    apply Forall_app. split; [exact Hm | apply Hf].
  - now rewrite (bind_outcome_err _ _ _ _ Hout), trace_triple.
Qed.

Lemma reads_create_nothing (P : IPAddressClaim -> Prop) (t : list Event) :
  Forall (fun ev => isGet ev = true) t ->
  Forall (fun ev => forall c, createdClaim ev = Some c -> P c) t.
Proof.
  intros Hreads. eapply Forall_impl; [exact Hreads|].
  intros ev Hev c Hc. now destruct ev.
Qed.

Lemma applyCapi_creates {W : Type} {C : ClientInterface W}
    (deps : Collaborators) (d : metalDriver) (networkRef : IPAMConfig)
    (machineName : string) (w : W) :
  Forall (fun ev => forall c, createdClaim ev = Some c ->
            exists ref,
              IPAMRef networkRef = Some ref
              /\ c = newClaim (ipAddrClaimKey d networkRef machineName) ref)
    (trace (applyCapiIPAddress deps d networkRef machineName w)).
Proof.
  destruct (applyCapi_cases deps d networkRef machineName w)
    as [(c & w1 & Hbound & Hrun)
       |[(w1 & Hrun)
        |[(e0 & w1 & _ & Hrun)
         |[(e0 & w1 & _ & Hrun)
          |[(e0 & ref & e' & w2 & Href & Hrun)
           |(e0 & ref & c & w2 & Href & Hrun)]]]]];
    rewrite Hrun, trace_triple.
  - constructor; [discriminate|].
    apply reads_create_nothing, resolveAddress_reads.
  - repeat constructor; discriminate.
  - repeat constructor; discriminate.
  - repeat constructor; discriminate.
  - constructor; [discriminate|]. constructor; [|constructor].
    intros c [= <-]. now exists ref.
  - constructor; [discriminate|]. constructor.
    + intros c' [= <-]. now exists ref.
    + apply reads_create_nothing, (waitAndResolve_reads deps).
Qed.

Lemma ipAddrClaimName_length (machineName metadataKey : string) :
  String.length (ipAddrClaimName machineName metadataKey) <= DNS1123SubdomainMaxLength.
Proof.
  rewrite ipAddrClaimName_prefix, length_substring_0. lia.
Qed.

(** Every claim that [applyIPAddresses] creates is the claim of a reference
    of the request that is of the cluster-API group: it lies in the
    namespace of the driver, its name is the claim name of the machine and
    of the metadata key of the reference, at most 253 bytes long, its pool
    is the pool of the reference, and it carries no address yet. *)
Theorem created_claims_belong_to_references {W : Type} {C : ClientInterface W}
    (deps : Collaborators) (d : metalDriver) (machineName : string)
    (providerSpec : ProviderSpec) (w : W) :
  Forall (fun ev => forall c, createdClaim ev = Some c ->
            String.length (claim_Name c) <= 253
            /\ claim_Namespace c = metalNamespace d
            /\ claim_AddressRefName c = ""
            /\ exists networkRef ref,
                 networkRef ∈ ps_IPAMConfig providerSpec
                 /\ IPAMRef networkRef = Some ref
                 /\ ref_APIGroup ref = capiGroup
                 /\ claim_Name c = ipAddrClaimName machineName (MetadataKey networkRef)
                 /\ claim_PoolRef c
                    = {| pool_APIGroup := Some (ref_APIGroup ref);
                         pool_Kind := ref_Kind ref;
                         pool_Name := ref_Name ref |})
    (trace (applyIPAddresses deps d machineName providerSpec w)).
Proof.
  unfold applyIPAddresses. rewrite withLock_trace.
  constructor; [discriminate|]. apply Forall_app. split; [|repeat constructor; discriminate].
  generalize (@nil (gmap string value)) as acc. revert w.
  induction (ps_IPAMConfig providerSpec) as [|networkRef rest IH]; intros w acc.
  - constructor.
  - cbn [applyNetworkRefs]. destruct (isCapiRef networkRef) eqn:Hcapi.
    + apply Forall_bind.
      * intros w'. eapply Forall_impl; [apply applyCapi_creates|].
        intros ev Hev c Hc. destruct (Hev c Hc) as (ref & Href & ->).
        split; [apply ipAddrClaimName_length|]. do 2 (split; [reflexivity|]).
        exists networkRef, ref. split; [apply list_elem_of_here|].
        split; [exact Href|]. split; [|split; reflexivity].
        unfold isCapiRef in Hcapi. rewrite Href in Hcapi.
        now apply String.eqb_eq.
      * intros md w'. eapply Forall_impl; [apply IH|].
        intros ev Hev c Hc. destruct (Hev c Hc) as (Hlen & Hns & Hst & nr & ref & Hin & Hrest).
        repeat split; try assumption. exists nr, ref.
        split; [now apply list_elem_of_further | exact Hrest].
    + eapply Forall_impl; [apply IH|].
      intros ev Hev c Hc. destruct (Hev c Hc) as (Hlen & Hns & Hst & nr & ref & Hin & Hrest).
      repeat split; try assumption. exists nr, ref.
      split; [now apply list_elem_of_further | exact Hrest].
Qed.

Lemma append_assoc (a b c : string) : (a +:+ b) +:+ c = a +:+ (b +:+ c).
Proof.
  induction a as [|x a IH]; [reflexivity|].
  change (String x ((a +:+ b) +:+ c) = String x (a +:+ (b +:+ c))).
  now rewrite IH.
Qed.

(** The claim name does not keep the machine name and the metadata key
    apart: a dash may belong to either, so a machine [m-x] with the key [k]
    and a machine [m] with the key [x-k] get the same claim name, with or
    without truncation. *)
Theorem claim_name_is_ambiguous_at_dashes (machineName infix metadataKey : string) :
  ipAddrClaimName (machineName +:+ "-" +:+ infix) metadataKey
  = ipAddrClaimName machineName (infix +:+ "-" +:+ metadataKey).
Proof.
  unfold ipAddrClaimName.
  now rewrite !append_assoc.
Qed.

(** ** The two applies *)

(** [applyServerClaim] has three ends.  If the apply of the server claim
    fails, the secret is not applied and the error is Internal, "error
    applying metal machine".  If the apply of the secret fails, the server
    claim has been applied and stays so, nothing is undone, and the error is
    Internal, "error applying ignition secret".  Otherwise it returns the
    server claim as the control plane sent it back. *)
Theorem server_claim_apply_has_three_ends {W : Type} {C : ClientInterface W}
    (deps : Collaborators) (d : metalDriver) (machineName : string)
    (providerSpec : ProviderSpec) (ignitionSecret : Secret) (w : W) :
  let serverClaim := newServerClaim d machineName providerSpec ignitionSecret in
  let applied err := EvPatch (OServerClaim serverClaim) ApplyPatch (fieldOwner deps)
                       true err in
  let appliedSecret err := EvPatch (OSecret ignitionSecret) ApplyPatch
                             (fieldOwner deps) true err in
  (forall e w1,
     cl_PatchServerClaim serverClaim w = (Err e, w1) ->
     applyServerClaim deps d machineName providerSpec ignitionSecret w
     = (Err (ErrStatus Internal ("error applying metal machine: " +:+ errString e)),
        w1, [EvLock; applied (Some e); EvUnlock]))
  /\ (forall serverClaim' w1,
        cl_PatchServerClaim serverClaim w = (Ok serverClaim', w1) ->
        (forall e w2,
           cl_PatchSecret ignitionSecret w1 = (Err e, w2) ->
           applyServerClaim deps d machineName providerSpec ignitionSecret w
           = (Err (ErrStatus Internal
                     ("error applying ignition secret: " +:+ errString e)),
              w2, [EvLock; applied None; appliedSecret (Some e); EvUnlock]))
        /\ (forall secret' w2,
              cl_PatchSecret ignitionSecret w1 = (Ok secret', w2) ->
              applyServerClaim deps d machineName providerSpec ignitionSecret w
              = (Ok serverClaim', w2,
                 [EvLock; applied None; appliedSecret None; EvUnlock]))).
Proof.
  intros serverClaim applied appliedSecret.
  unfold applyServerClaim, withLock, bind, Apply_serverClaim, Apply_secret.
  fold serverClaim. split.
  - intros e w1 Hsc. now rewrite Hsc.
  - intros serverClaim' w1 Hsc. rewrite Hsc. split.
    + intros e w2 Hsecret. now rewrite Hsecret.
    + intros secret' w2 Hsecret. now rewrite Hsecret.
Qed.

Lemma applyIgnition_ok {W : Type} {C : ClientInterface W}
    (deps : Collaborators) (d : metalDriver) (machineName : string)
    (secret : Secret) (providerSpec : ProviderSpec)
    (addressMetaData : list (gmap string value)) (ignitionSecret : Secret) :
  @applyIgnition deps d machineName secret providerSpec addressMetaData
  = Ok ignitionSecret ->
  sec_Name ignitionSecret = getIgnitionNameForMachine deps machineName
  /\ sec_Namespace ignitionSecret = metalNamespace d
  /\ sec_Kind ignitionSecret = "Secret"
  /\ exists content, sec_Data ignitionSecret = {[ "ignition" := content ]}.
Proof.
  unfold applyIgnition.
  destruct (sec_Data secret !! "userData") as [userData|]; [|discriminate].
  destruct (ignition_File deps _) as [content|e]; [|discriminate].
  intros [= <-]. repeat split. now exists content.
Qed.

(** Whatever [CreateMachine] applies for a request is built for the machine
    of that request: a server claim of the machine's name in the namespace
    of the driver, powered on, with the image, the labels and the server
    selector of the provider spec, and naming the ignition secret of the
    machine; and a secret of exactly that name in the same namespace, with
    the single entry "ignition".  No address claim is ever patched. *)
Theorem applied_objects_are_those_of_the_machine {W : Type} {C : ClientInterface W}
    (deps : Collaborators) (d : metalDriver)
    (class : MachineClass) (machine : Machine) (secret : Secret)
    (providerSpec : ProviderSpec) (w : W) :
  validateProviderSpecAndSecret deps (Some class) secret = Ok providerSpec ->
  Forall (writesFor deps d (m_Name machine) providerSpec)
    (trace (CreateMachine deps d
              (Some {| req_MachineClass := Some class; req_Machine := Some machine;
                       req_Secret := Some secret |}) w)).
Proof.
  intros Hvalid. unfold CreateMachine.
  cbn [isEmptyCreateRequest isNil req_MachineClass req_Machine req_Secret orb].
  destruct (negb (String.eqb (mc_Provider class) ProviderName)); [constructor|].
  rewrite Hvalid. apply Forall_bind.
  - intros w0. eapply Forall_impl; [apply applyIPAddresses_no_patch|].
    intros ev Hev. now destruct ev.
  - intros addressMetaData w1.
    destruct (applyIgnition deps d (m_Name machine) secret providerSpec addressMetaData)
      as [ignitionSecret|e] eqn:Hign; [|constructor].
    destruct (applyIgnition_ok deps d _ _ _ _ _ Hign) as (Hname & Hns & Hkind & Hdata).
    apply Forall_bind; [|constructor].
    intros w2.
    pose proof (applyServerClaim_trace deps d (m_Name machine) providerSpec
                  ignitionSecret w2) as Htrace.
    cbv zeta in Htrace.
    assert (Hsc : writesFor deps d (m_Name machine) providerSpec
                    (EvPatch (OServerClaim
                                (newServerClaim d (m_Name machine) providerSpec
                                   ignitionSecret))
                       ApplyPatch (fieldOwner deps) true None))
      by (simpl; now rewrite Hname).
    destruct (outcome (applyServerClaim deps d (m_Name machine) providerSpec
                         ignitionSecret w2)).
    + rewrite Htrace. repeat constructor; try assumption; now rewrite Hname.
    + destruct Htrace as [err [-> | ->]];
        repeat constructor; try assumption; now rewrite Hname.
Qed.

Lemma applied_objects_are_those_of_the_machine_witness :
  Forall (writesFor (depsOf [eth0]) theDriver "m1" (specOf [eth0]))
    (trace (CreateMachine (depsOf [eth0]) theDriver (requestFor "m1")
              (emptySim (Some 2)))).
Proof.
  apply (applied_objects_are_those_of_the_machine (depsOf [eth0]) theDriver
           {| mc_Provider := ProviderName; mc_ProviderSpecRaw := "{}" |}
           {| m_Name := "m1" |} _ (specOf [eth0]) (emptySim (Some 2))).
  reflexivity.
Defined.

(** The user data of the machine secret is looked for only after the
    addresses have been allocated: for a request that validates but whose
    secret has no "userData", [applyIPAddresses] runs in full, claims
    included, and then the call fails with an Internal error, or with the
    error of the allocation if that failed; nothing is applied. *)
Theorem user_data_is_missed_after_allocation {W : Type} {C : ClientInterface W}
    (deps : Collaborators) (d : metalDriver)
    (class : MachineClass) (machine : Machine) (secret : Secret)
    (providerSpec : ProviderSpec) (w : W) :
  mc_Provider class = ProviderName ->
  validateProviderSpecAndSecret deps (Some class) secret = Ok providerSpec ->
  sec_Data secret !! "userData" = None ->
  CreateMachine deps d
    (Some {| req_MachineClass := Some class; req_Machine := Some machine;
             req_Secret := Some secret |}) w
  = (match outcome (applyIPAddresses deps d (m_Name machine) providerSpec w) with
     | Ok _ =>
         Err (ErrStatus Internal
                ("failed to find user-data in machine secret "
                 +:+ sec_Namespace secret +:+ "/" +:+ sec_Name secret))
     | Err e => Err e
     end,
     world (applyIPAddresses deps d (m_Name machine) providerSpec w),
     trace (applyIPAddresses deps d (m_Name machine) providerSpec w)).
Proof.
  intros Hprov Hvalid Hnone. unfold CreateMachine.
  cbn [isEmptyCreateRequest isNil req_MachineClass req_Machine req_Secret orb].
  rewrite Hprov, String.eqb_refl. cbn [negb]. rewrite Hvalid.
  destruct (outcome (applyIPAddresses deps d (m_Name machine) providerSpec w))
    as [mds|e] eqn:Hout.
  - rewrite (bind_outcome_ok _ _ _ _ Hout).
    unfold applyIgnition. rewrite Hnone.
    unfold fail, outcome, world, trace. simpl. now rewrite app_nil_r.
  - now rewrite (bind_outcome_err _ _ _ _ Hout).
Qed.

(** A secret without user data: the claim [m1-eth0] is created all the
    same, and the call fails. *)
Lemma user_data_is_missed_after_allocation_witness :
  outcome (CreateMachine (depsOf [eth0]) theDriver bareRequest (emptySim (Some 2)))
  = Err (ErrStatus Internal
           "failed to find user-data in machine secret default/m1-secret")
  /\ countWhere isCreate
       (trace (CreateMachine (depsOf [eth0]) theDriver bareRequest
                 (emptySim (Some 2))))
     = 1.
Proof.
  unfold bareRequest.
  rewrite (user_data_is_missed_after_allocation (depsOf [eth0]) theDriver
             {| mc_Provider := ProviderName; mc_ProviderSpecRaw := "{}" |}
             {| m_Name := "m1" |} bareSecret (specOf [eth0]) (emptySim (Some 2))
             eq_refl eq_refl eq_refl).
  vm_compute. split; reflexivity.
Defined.

(** ** The provider, from its start on *)

(** When [NewProviderAndNamespace] succeeds, the kubeconfig at the path was
    read and loaded, the provider keeps that path and holds the client that
    [client.New] built from it, and the namespace returned is the one of
    that kubeconfig and is not empty. *)
Theorem new_provider_is_complete {Kubeconfig RestConfig Handle : Type}
    (clientcmd_Load : string -> result Kubeconfig)
    (ClientConfig : Kubeconfig -> result RestConfig)
    (ConfigNamespace : Kubeconfig -> result string)
    (client_New : RestConfig -> result Handle)
    (watcherAdd : option error) (fs : FileSystem) (path : string)
    (p : Provider) (namespace : string) :
  NewProviderAndNamespace clientcmd_Load ClientConfig ConfigNamespace client_New
    watcherAdd fs path = Ok (p, namespace) ->
  watcherAdd = None
  /\ kubeconfigPath p = path
  /\ namespace <> ""
  /\ exists kubeconfigData kubeconfig restConfig newClient,
       fs !! path = Some kubeconfigData
       /\ clientcmd_Load kubeconfigData = Ok kubeconfig
       /\ ClientConfig kubeconfig = Ok restConfig
       /\ client_New restConfig = Ok newClient
       /\ Client p = Some newClient
       /\ ConfigNamespace kubeconfig = Ok namespace.
Proof.
  unfold NewProviderAndNamespace, getClientConfig, os_ReadFile, setMetalClient,
    getNamespace.
  cbn [kubeconfigPath].
  destruct watcherAdd as [e|]; [discriminate|].
  destruct (fs !! path) as [data|] eqn:Hfile; [|discriminate].
  destruct (clientcmd_Load data) as [kubeconfig|e] eqn:Hload; [|discriminate].
  destruct (ClientConfig kubeconfig) as [restConfig|e] eqn:Hconfig; [|discriminate].
  destruct (client_New restConfig) as [newClient|e] eqn:Hnew; [|discriminate].
  destruct (ConfigNamespace kubeconfig) as [ns|e] eqn:Hspace; [|discriminate].
  destruct (String.eqb ns "") eqn:Hns; [discriminate|].
  intros [= <- <-]. apply String.eqb_neq in Hns.
  split; [reflexivity|]. split; [reflexivity|]. split; [exact Hns|].
  exists data, kubeconfig, restConfig, newClient.
  split; [reflexivity|]. split; [exact Hload|]. split; [exact Hconfig|].
  split; [exact Hnew|]. split; [reflexivity | exact Hspace].
Qed.

Lemma new_provider_is_complete_witness :
  kubeconfigPath
    {| Client := Some "client of server: https://10.0.0.1";
       kubeconfigPath := examplePath |}
  = examplePath.
Proof.
  refine (proj1 (proj2 (new_provider_is_complete exampleLoad exampleClientConfig
                          (fun _ => Ok "metal") exampleNew None
                          {[ examplePath := "server: https://10.0.0.1" ]}
                          examplePath _ "metal" _))).
  vm_compute. reflexivity.
Defined.

(** The errors of [NewProviderAndNamespace] that the tests of the provider
    look for: a kubeconfig file that is not there gives an error that starts
    with "failed to read metal kubeconfig"; a directory that cannot be
    watched gives one that starts with "unable to add kubeconfig", before
    any file is read; a kubeconfig that yields no rest configuration gives
    one that starts with "unable to get metal cluster rest config:". *)
Theorem new_provider_errors_start_as_tested {Kubeconfig RestConfig Handle : Type}
    (clientcmd_Load : string -> result Kubeconfig)
    (ClientConfig : Kubeconfig -> result RestConfig)
    (ConfigNamespace : Kubeconfig -> result string)
    (client_New : RestConfig -> result Handle)
    (fs : FileSystem) (path : string) :
  (fs !! path = None ->
     exists e,
       NewProviderAndNamespace clientcmd_Load ClientConfig ConfigNamespace client_New
         None fs path = Err e
       /\ String.prefix "failed to read metal kubeconfig" (errString e) = true)
  /\ (forall err,
        exists e,
          NewProviderAndNamespace clientcmd_Load ClientConfig ConfigNamespace
            client_New (Some err) fs path = Err e
          /\ String.prefix "unable to add kubeconfig" (errString e) = true)
  /\ (forall kubeconfigData kubeconfig err,
        fs !! path = Some kubeconfigData ->
        clientcmd_Load kubeconfigData = Ok kubeconfig ->
        ClientConfig kubeconfig = Err err ->
        exists e,
          NewProviderAndNamespace clientcmd_Load ClientConfig ConfigNamespace
            client_New None fs path = Err e
          /\ String.prefix "unable to get metal cluster rest config:" (errString e)
             = true).
Proof.
  unfold NewProviderAndNamespace, getClientConfig, os_ReadFile, setMetalClient.
  cbn [kubeconfigPath]. split; [|split].
  - intros Habsent. rewrite Habsent. eexists. split; reflexivity.
  - intros err. eexists. split; reflexivity.
  - intros data kubeconfig err Hfile Hload Hconfig.
    rewrite Hfile, Hload, Hconfig. eexists. split; reflexivity.
Qed.

(** The first test: no file at the path. *)
Lemma new_provider_errors_start_as_tested_witness :
  exists e,
    NewProviderAndNamespace exampleLoad exampleClientConfig (fun _ => Ok "metal")
      exampleNew None ∅ examplePath = Err e
    /\ String.prefix "failed to read metal kubeconfig" (errString e) = true.
Proof.
  apply (proj1 (new_provider_errors_start_as_tested exampleLoad exampleClientConfig
                  (fun _ => Ok "metal") exampleNew ∅ examplePath)).
  reflexivity.
Defined.

(** ** The watcher loop *)

Lemma handleEvent_keeps {Kubeconfig RestConfig Handle : Type}
    (clientcmd_Load : string -> result Kubeconfig)
    (ClientConfig : Kubeconfig -> result RestConfig)
    (client_New : RestConfig -> result Handle)
    (fs : FileSystem) (p : Provider) (name : string) :
  kubeconfigPath (handleEvent clientcmd_Load ClientConfig client_New fs p name).1
  = kubeconfigPath p
  /\ (Client (handleEvent clientcmd_Load ClientConfig client_New fs p name).1
      = Client p
      \/ exists restConfig newClient,
           client_New restConfig = Ok newClient
           /\ Client (handleEvent clientcmd_Load ClientConfig client_New fs p name).1
              = Some newClient).
Proof.
  unfold handleEvent.
  destruct (negb (String.eqb name (kubeconfigPath p))); [now split; [|left]|].
  destruct (getClientConfig clientcmd_Load fs p) as [clientConfig|e];
    [|now split; [|left]].
  unfold setMetalClient.
  destruct (ClientConfig clientConfig) as [restConfig|e]; [|now split; [|left]].
  destruct (client_New restConfig) as [newClient|e] eqn:Hnew; [|now split; [|left]].
  split; [reflexivity|]. right. now exists restConfig, newClient.
Qed.

(** Whatever the watcher receives, in whatever state the files are, the
    provider keeps its path, and a provider that holds a client holds one
    ever after: the first client, or one that [client.New] built. *)
Theorem watcher_never_drops_the_client {Kubeconfig RestConfig Handle : Type}
    (clientcmd_Load : string -> result Kubeconfig)
    (ClientConfig : Kubeconfig -> result RestConfig)
    (client_New : RestConfig -> result Handle)
    (inputs : list (WatchInput * FileSystem)) (p : Provider) (c0 : Handle) :
  Client p = Some c0 ->
  kubeconfigPath (watchLoop clientcmd_Load ClientConfig client_New inputs p).1
  = kubeconfigPath p
  /\ exists c,
       Client (watchLoop clientcmd_Load ClientConfig client_New inputs p).1 = Some c
       /\ (c = c0 \/ exists restConfig, client_New restConfig = Ok c).
Proof.
  revert p c0. induction inputs as [|[[err|name|] fs] inputs IH]; intros p c0 Hclient;
    cbn [watchLoop fst]; try (split; [reflexivity | exists c0; now split; [|left]]).
  destruct (handleEvent_keeps clientcmd_Load ClientConfig client_New fs p name)
    as [Hpath [Hsame|(restConfig & newClient & Hnew & Hnow)]].
  - rewrite Hclient in Hsame. destruct (IH _ c0 Hsame) as [Hp Hc].
    split; [now rewrite Hp | exact Hc].
  - destruct (IH _ newClient Hnow) as [Hp (c & Hc & Hfrom)].
    split; [now rewrite Hp|]. exists c. split; [exact Hc|].
    destruct Hfrom as [->|Hbuilt]; [right; now exists restConfig | now right].
Qed.

(** Two rotations, the first one broken: the client of the second is in
    place at the end. *)
Lemma watcher_never_drops_the_client_witness :
  exists c,
    Client (watchLoop exampleLoad exampleClientConfig exampleNew
              [(WatcherEvent examplePath, brokenFiles);
               (WatcherEvent examplePath,
                {[ examplePath := "server: https://10.0.0.2" ]})]
              exampleProvider).1
    = Some c
    /\ (c = "client of server: https://10.0.0.1"
        \/ exists restConfig, exampleNew restConfig = Ok c).
Proof.
  refine (proj2 (watcher_never_drops_the_client exampleLoad exampleClientConfig
                   exampleNew _ exampleProvider _ _)).
  reflexivity.
Defined.

(** A change of the kubeconfig that loads, yields a rest configuration and
    a client: after the event the provider holds exactly that client, and
    the path it watches is the same. *)
Theorem good_rotation_installs_the_new_client {Kubeconfig RestConfig Handle : Type}
    (clientcmd_Load : string -> result Kubeconfig)
    (ClientConfig : Kubeconfig -> result RestConfig)
    (client_New : RestConfig -> result Handle)
    (fs : FileSystem) (p : Provider)
    (kubeconfigData : string) (kubeconfig : Kubeconfig) (restConfig : RestConfig)
    (newClient : Handle) :
  fs !! kubeconfigPath p = Some kubeconfigData ->
  clientcmd_Load kubeconfigData = Ok kubeconfig ->
  ClientConfig kubeconfig = Ok restConfig ->
  client_New restConfig = Ok newClient ->
  (handleEvent clientcmd_Load ClientConfig client_New fs p (kubeconfigPath p)).1
  = {| Client := Some newClient; kubeconfigPath := kubeconfigPath p |}.
Proof.
  intros Hfile Hload Hconfig Hnew.
  unfold handleEvent, getClientConfig, os_ReadFile, setMetalClient.
  rewrite String.eqb_refl, Hfile, Hload, Hconfig, Hnew. reflexivity.
Qed.

Lemma good_rotation_installs_the_new_client_witness :
  (handleEvent exampleLoad exampleClientConfig exampleNew
     {[ examplePath := "server: https://10.0.0.2" ]} exampleProvider examplePath).1
  = {| Client := Some "client of server: https://10.0.0.2";
       kubeconfigPath := examplePath |}.
Proof.
  rewrite (good_rotation_installs_the_new_client exampleLoad exampleClientConfig
             exampleNew {[ examplePath := "server: https://10.0.0.2" ]}
             exampleProvider "server: https://10.0.0.2" "server: https://10.0.0.2"
             "server: https://10.0.0.2" "client of server: https://10.0.0.2");
    [reflexivity | vm_compute; reflexivity ..].
Defined.

(** A change of the kubeconfig whose content loads is logged as handled
    successfully whether or not the client could be replaced: when
    [setMetalClient] fails, the provider is as before, the failure is
    logged, and the line of success follows it all the same. *)
Theorem failed_update_is_logged_as_handled {Kubeconfig RestConfig Handle : Type}
    (clientcmd_Load : string -> result Kubeconfig)
    (ClientConfig : Kubeconfig -> result RestConfig)
    (client_New : RestConfig -> result Handle)
    (fs : FileSystem) (p : Provider) (clientConfig : Kubeconfig) (err : error) :
  getClientConfig clientcmd_Load fs p = Ok clientConfig ->
  (setMetalClient ClientConfig client_New p clientConfig).1 = Some err ->
  exists event,
    handleEvent clientcmd_Load ClientConfig client_New fs p (kubeconfigPath p)
    = (p, [event;
           "couldn't update metal client when config changed: " +:+ errString err;
           "change of kubeconfig was handled successfully"]).
Proof.
  intros Hconfig Hset. unfold handleEvent.
  rewrite String.eqb_refl, Hconfig. cbn [negb].
  destruct (setMetalClient ClientConfig client_New p clientConfig) as [[e|] p'] eqn:Hp;
    [|discriminate].
  simpl in Hset. injection Hset as ->.
  assert (p' = p) as ->.
  { revert Hp. unfold setMetalClient.
    destruct (ClientConfig clientConfig) as [restConfig|e]; [|now intros [= _ <-]].
    destruct (client_New restConfig) as [newClient|e];
      [discriminate | now intros [= _ <-]]. }
  now eexists.
Qed.

(** The kubeconfig loads but yields no rest configuration. *)
Lemma failed_update_is_logged_as_handled_witness :
  exists event,
    handleEvent exampleLoad exampleClientConfig exampleNew brokenFiles exampleProvider
      (kubeconfigPath exampleProvider)
    = (exampleProvider,
       [event;
        "couldn't update metal client when config changed: "
        +:+ errString (ErrWrap "unable to get metal cluster rest config"
                         (ErrAPI "invalid configuration: no configuration has been provided"));
        "change of kubeconfig was handled successfully"]).
Proof.
  apply (failed_update_is_logged_as_handled exampleLoad exampleClientConfig exampleNew
           brokenFiles exampleProvider "apiVersion: v1");
    vm_compute; reflexivity.
Defined.


(** Events that name other files of the watched directory pass without a
    trace: the provider is the same after any number of them, and the files
    are not read. *)
Theorem other_files_are_ignored {Kubeconfig RestConfig Handle : Type}
    (clientcmd_Load : string -> result Kubeconfig)
    (ClientConfig : Kubeconfig -> result RestConfig)
    (client_New : RestConfig -> result Handle)
    (inputs : list (WatchInput * FileSystem)) (p : Provider) :
  Forall (fun input => exists name,
            input.1 = WatcherEvent name /\ name <> kubeconfigPath p) inputs ->
  watchLoop clientcmd_Load ClientConfig client_New inputs p = (p, Running).
Proof.
  induction 1 as [|[input fs] inputs (name & Hevent & Hother) _ IH]; [reflexivity|].
  simpl in Hevent. subst input. cbn [watchLoop].
  now rewrite (handleEvent_other_file clientcmd_Load ClientConfig client_New
                 fs p name Hother).
Qed.

Lemma other_files_are_ignored_witness :
  watchLoop exampleLoad exampleClientConfig exampleNew
    [(WatcherEvent "/etc/metal/token", brokenFiles);
     (WatcherEvent "/etc/metal/..data", ∅)] exampleProvider
  = (exampleProvider, Running).
Proof.
  apply (other_files_are_ignored exampleLoad exampleClientConfig exampleNew).
  repeat constructor; eexists; (split; [reflexivity | discriminate]).
Defined.

(** ** Where the clients of the requests come from *)

Section Provenance.
Context {Kubeconfig RestConfig Handle : Type}.
Context (clientcmd_Load : string -> result Kubeconfig)
        (ClientConfig : Kubeconfig -> result RestConfig)
        (client_New : RestConfig -> result Handle).

Local Abbreviation provenance := (provenance clientcmd_Load ClientConfig client_New).
Local Abbreviation fromKubeconfig :=
  (fromKubeconfig clientcmd_Load ClientConfig client_New).

Lemma stepRequest_provenance (c0 : Handle) (i : nat) (leave : bool)
    (s : Shared (RestConfig := RestConfig)) :
  provenance c0 s -> provenance c0 (stepRequest i leave s).
Proof.
  intros (Hcell & Hseen & Hreq & Hw). unfold stepRequest.
  destruct (requestPc s i) as [| |metalClient] eqn:Hpc.
  - destruct (mu s); [now repeat split|].
    repeat split; try assumption.
    intros j m. unfold requestPc. simpl. rewrite lookup_setRequest.
    destruct (decide (i = j)); [discriminate | apply Hreq].
  - repeat split; try assumption.
    + simpl. apply Forall_app. split; [exact Hseen | now constructor].
    + intros j m. unfold requestPc. simpl. rewrite lookup_setRequest.
      destruct (decide (i = j)); [now intros [= <-] | apply Hreq].
  - destruct leave.
    + repeat split; try assumption.
      intros j m. unfold requestPc. simpl. rewrite lookup_setRequest.
      destruct (decide (i = j)); [discriminate | apply Hreq].
    + repeat split; try assumption.
      simpl. apply Forall_app. split; [exact Hseen|].
      constructor; [|constructor]. now apply (Hreq i).
Qed.

Lemma stepWatcher_provenance (c0 : Handle) (path name : string) (fs : FileSystem)
    (s : Shared) :
  provenance c0 s ->
  provenance c0 (stepWatcher clientcmd_Load ClientConfig client_New path name fs s).
Proof.
  intros Hs. unfold stepWatcher.
  destruct (watcher s) as [|r|r|c|c|] eqn:Hwatcher.
  - destruct (negb (String.eqb name path)); [exact Hs|].
    unfold getClientConfig, os_ReadFile. cbn [kubeconfigPath].
    destruct (fs !! path) as [data|]; [|exact Hs].
    destruct (clientcmd_Load data) as [kubeconfig|e] eqn:Hload; [|exact Hs].
    destruct (ClientConfig kubeconfig) as [restConfig|e] eqn:Hconfig; [|exact Hs].
    destruct Hs as (Hcell & Hseen & Hreq & _).
    repeat split; try assumption. simpl. now exists data, kubeconfig.
  - destruct (mu s); [exact Hs|].
    destruct Hs as (Hcell & Hseen & Hreq & Hw). rewrite Hwatcher in Hw.
    now repeat split.
  - destruct Hs as (Hcell & Hseen & Hreq & Hw). rewrite Hwatcher in Hw.
    destruct (client_New r) as [newClient|e] eqn:Hnew; [|now repeat split].
    repeat split; try assumption. simpl. now exists r.
  - destruct Hs as (Hcell & Hseen & Hreq & Hw). rewrite Hwatcher in Hw.
    now repeat split.
  - destruct Hs as (Hcell & Hseen & Hreq & Hw). rewrite Hwatcher in Hw.
    repeat split; try assumption. simpl. now right.
  - destruct Hs as (Hcell & Hseen & Hreq & Hw). now repeat split.
Qed.

Lemma run_provenance (c0 : Handle) (path : string) (schedule : list Action) :
  forall s : Shared,
  provenance c0 s ->
  provenance c0 (run clientcmd_Load ClientConfig client_New path schedule s).
Proof.
  unfold run. induction schedule as [|a schedule IH]; intros s Hs; [exact Hs|].
  simpl. apply IH. destruct a as [i leave|name fs]; simpl.
  - now apply stepRequest_provenance.
  - now apply stepWatcher_provenance.
Qed.

End Provenance.

(** Under any schedule of requests and watcher steps, every client that a
    request reads or calls is whole and is either the client the provider
    started with or one that [client.New] built from a rest configuration
    that a kubeconfig gave: no request ever works with anything else. *)
Theorem request_clients_come_from_the_kubeconfig
    {Kubeconfig RestConfig Handle : Type}
    (clientcmd_Load : string -> result Kubeconfig)
    (ClientConfig : Kubeconfig -> result RestConfig)
    (client_New : RestConfig -> result Handle)
    (path : string) (c0 : Handle) (schedule : list Action) :
  Forall (fun metalClient =>
            exists c,
              metalClient = CellFull c
              /\ (c = c0
                  \/ exists kubeconfigData kubeconfig restConfig,
                       clientcmd_Load kubeconfigData = Ok kubeconfig
                       /\ ClientConfig kubeconfig = Ok restConfig
                       /\ client_New restConfig = Ok c))
    (seen (run clientcmd_Load ClientConfig client_New path schedule (initial c0))).
Proof.
  assert (Hstart : provenance clientcmd_Load ClientConfig client_New c0
                     (@initial RestConfig Handle c0)).
  { repeat split; [now left | constructor | ].
    intros i m. unfold requestPc. simpl. now rewrite lookup_empty. }
  pose proof (run_provenance clientcmd_Load ClientConfig client_New c0 path
                schedule _ Hstart) as (_ & Hseen & _).
  pose proof (run_consistent clientcmd_Load ClientConfig client_New path schedule _
                (initial_consistent c0)) as [Hfull _].
  rewrite Forall_forall in *. intros x Hx.
  specialize (Hseen x Hx). specialize (Hfull x Hx).
  destruct x as [| |c]; try discriminate. exists c. split; [reflexivity|].
  destruct Hseen as [->|(r & (data & k & Hload & Hconfig) & Hnew)]; [now left|].
  right. now exists data, k, r.
Qed.

(** ** What the answer of [CreateMachine] tells *)

(** [CreateMachine] answers with a machine only when the request is for
    this provider, validates, all its addresses were allocated, the ignition
    was built, and both the server claim and the ignition secret were
    applied without error: these two applies, the server claim first, are
    then the last calls made, after those of the allocation. *)
Theorem created_machine_has_both_objects_applied
    {W : Type} {C : ClientInterface W}
    (deps : Collaborators) (d : metalDriver)
    (class : MachineClass) (machine : Machine) (secret : Secret) (w : W)
    (response : CreateMachineResponse) :
  let req := Some {| req_MachineClass := Some class; req_Machine := Some machine;
                     req_Secret := Some secret |} in
  outcome (CreateMachine deps d req w) = Ok response ->
  mc_Provider class = ProviderName
  /\ exists providerSpec addressMetaData ignitionSecret,
       validateProviderSpecAndSecret deps (Some class) secret = Ok providerSpec
       /\ outcome (applyIPAddresses deps d (m_Name machine) providerSpec w)
          = Ok addressMetaData
       /\ applyIgnition deps d (m_Name machine) secret providerSpec addressMetaData
          = Ok ignitionSecret
       /\ trace (CreateMachine deps d req w)
          = trace (applyIPAddresses deps d (m_Name machine) providerSpec w)
            ++ [EvLock;
                EvPatch (OServerClaim
                           (newServerClaim d (m_Name machine) providerSpec
                              ignitionSecret))
                  ApplyPatch (fieldOwner deps) true None;
                EvPatch (OSecret ignitionSecret) ApplyPatch (fieldOwner deps) true
                  None;
                EvUnlock].
Proof.
  intros req. subst req. unfold CreateMachine.
  cbn [isEmptyCreateRequest isNil req_MachineClass req_Machine req_Secret orb].
  destruct (String.eqb (mc_Provider class) ProviderName) eqn:Hprov;
    cbn [negb]; [|discriminate].
  apply String.eqb_eq in Hprov.
  destruct (validateProviderSpecAndSecret deps (Some class) secret)
    as [providerSpec|e] eqn:Hvalid; [|discriminate].
  destruct (outcome (applyIPAddresses deps d (m_Name machine) providerSpec w))
    as [addressMetaData|e] eqn:Hout.
  2: { rewrite (bind_outcome_err _ _ _ _ Hout). discriminate. }
  rewrite (bind_outcome_ok _ _ _ _ Hout), outcome_triple, trace_triple.
  destruct (applyIgnition deps d (m_Name machine) secret providerSpec addressMetaData)
    as [ignitionSecret|e] eqn:Hign; [|discriminate].
  set (w1 := world (applyIPAddresses deps d (m_Name machine) providerSpec w)).
  pose proof (applyServerClaim_trace deps d (m_Name machine) providerSpec
                ignitionSecret w1) as Htrace.
  cbv zeta in Htrace.
  destruct (outcome (applyServerClaim deps d (m_Name machine) providerSpec
                       ignitionSecret w1)) as [serverClaim|e] eqn:Hsc.
  2: { rewrite (bind_outcome_err _ _ _ _ Hsc). discriminate. }
  rewrite (bind_outcome_ok _ _ _ _ Hsc), outcome_triple, trace_triple.
  intros _. split; [exact Hprov|].
  exists providerSpec, addressMetaData, ignitionSecret.
  split; [reflexivity|]. split; [exact Hout|]. split; [exact Hign|].
  rewrite Htrace. reflexivity.
Qed.

(** The machine [m1] with one pool reference, over an allocator that binds
    at the second lookup. *)
Lemma created_machine_has_both_objects_applied_witness :
  exists response,
    outcome (CreateMachine (depsOf [eth0]) theDriver (requestFor "m1")
               (emptySim (Some 2)))
    = Ok response
    /\ mc_Provider {| mc_Provider := ProviderName; mc_ProviderSpecRaw := "{}" |}
       = ProviderName.
Proof.
  assert (Hok : { response |
                  outcome (CreateMachine (depsOf [eth0]) theDriver (requestFor "m1")
                             (emptySim (Some 2)))
                  = Ok response })
    by (eexists; vm_compute; reflexivity).
  destruct Hok as [response Hok]. exists response. split; [exact Hok|].
  exact (proj1 (created_machine_has_both_objects_applied (depsOf [eth0]) theDriver
                  {| mc_Provider := ProviderName; mc_ProviderSpecRaw := "{}" |}
                  {| m_Name := "m1" |}
                  {| sec_APIVersion := "v1"; sec_Kind := "Secret";
                     sec_Name := "m1-secret"; sec_Namespace := "default";
                     sec_Data := {[ "userData" := "#cloud-config" ]} |}
                  (emptySim (Some 2)) response Hok)).
Defined.



